(** * env_doctor: a shallow embedding of [scripts/env_doctor.py]

    The script probes the host (operating system, project path, interpreter
    version, binaries on the search path, Windows entries in [PATH]) and
    reduces the list of [CheckResult]s to a report and an exit status.

    Conventions of the embedding.
    - A Python [str] is a [string]: the bytes of its UTF-8 encoding.  Case
      folding ([str.lower], [re.IGNORECASE]) and white space ([str.strip],
      [str.split]) act on the ASCII range, which is where every literal of
      the script lives.
    - Everything the script reads from the process or the operating system
      is a field of [World]; a probe is a computation in the monad [Py],
      which reads the world, logs the effects it performs and may raise.
    - Only exceptions below Python's [Exception] are modelled. *)

From Stdlib Require Import ZArith Ascii String.
From stdpp Require Import base tactics option list strings pretty gmap gmultiset.

Local Open Scope Z_scope.

(** ** Characters and strings *)

Definition code (c : ascii) : N := N_of_ascii c.

Definition in_range (lo hi c : ascii) : bool :=
  ((code lo <=? code c) && (code c <=? code hi))%N.

Definition is_upper (c : ascii) : bool := in_range "A" "Z" c.
Definition is_lower (c : ascii) : bool := in_range "a" "z" c.

Definition lower_char (c : ascii) : ascii :=
  if is_upper c then ascii_of_N (code c + 32) else c.

Definition upper_char (c : ascii) : ascii :=
  if is_lower c then ascii_of_N (code c - 32) else c.

(** [s.lower()] *)
Fixpoint lower (s : string) : string :=
  match s with
  | EmptyString => EmptyString
  | String c s' => String (lower_char c) (lower s')
  end.

(** [s.startswith(p)] *)
Fixpoint startswith (p s : string) : bool :=
  match p, s with
  | EmptyString, _ => true
  | String a p', String b s' => Ascii.eqb a b && startswith p' s'
  | String _ _, EmptyString => false
  end.

(** [needle in hay] *)
Fixpoint contains (needle hay : string) : bool :=
  startswith needle hay ||
  match hay with
  | EmptyString => false
  | String _ hay' => contains needle hay'
  end.

(** [s.endswith("/")] *)
Fixpoint endswith_sep (s : string) : bool :=
  match s with
  | EmptyString => false
  | String c EmptyString => Ascii.eqb c "/"
  | String _ s' => endswith_sep s'
  end.

(** Truth value of a string: empty is false. *)
Definition truthy (s : string) : bool :=
  match s with EmptyString => false | String _ _ => true end.

(** Truth value of an optional string: [None] and the empty string are
    false. *)
Definition truthy_opt (x : option string) : bool :=
  match x with Some s => truthy s | None => false end.

(** [x or y] on an optional string: [None] and the empty string are false. *)
Definition or_else (x : option string) (y : string) : string :=
  match x with
  | Some s => if truthy s then s else y
  | None => y
  end.

(** White space as [str.strip] and [str.split] see it in the ASCII range:
    tab, line feed, vertical tab, form feed, carriage return, the four
    separators 0x1c..0x1f and the space. *)
Definition is_space (c : ascii) : bool :=
  in_range "009" "013" c || in_range "028" "032" c.

Fixpoint lstrip (s : string) : string :=
  match s with
  | EmptyString => EmptyString
  | String c s' => if is_space c then lstrip s' else s
  end.

Fixpoint rstrip (s : string) : string :=
  match s with
  | EmptyString => EmptyString
  | String c s' =>
      match rstrip s' with
      | EmptyString => if is_space c then EmptyString else String c EmptyString
      | r => String c r
      end
  end.

(** [s.strip()] *)
Definition strip (s : string) : string := rstrip (lstrip s).

(** [s.split()]: the maximal runs of characters that are not white space.
    [cur] is the run being read, reversed. *)
Fixpoint rev_string (acc s : string) : string :=
  match s with
  | EmptyString => acc
  | String c s' => rev_string (String c acc) s'
  end.

Fixpoint split_ws_aux (cur : string) (s : string) : list string :=
  match s with
  | EmptyString =>
      if truthy cur then [rev_string EmptyString cur] else []
  | String c s' =>
      if is_space c
      then (if truthy cur then [rev_string EmptyString cur] else [])
             ++ split_ws_aux EmptyString s'
      else split_ws_aux (String c cur) s'
  end.

Definition split_ws (s : string) : list string := split_ws_aux EmptyString s.

(** [s.split("/")] *)
Fixpoint split_sep_aux (cur : string) (s : string) : list string :=
  match s with
  | EmptyString => [rev_string EmptyString cur]
  | String c s' =>
      if Ascii.eqb c "/"
      then rev_string EmptyString cur :: split_sep_aux EmptyString s'
      else split_sep_aux (String c cur) s'
  end.

Definition split_sep (s : string) : list string := split_sep_aux EmptyString s.

(** ["/".join(l)] *)
Fixpoint join_sep (l : list string) : string :=
  match l with
  | [] => ""
  | [x] => x
  | x :: l' => x +:+ "/" +:+ join_sep l'
  end.

(** [repr] of a string, as the f-string of a list of strings prints its
    items: single quotes unless the string has a single quote and no double
    quote; backslash, the quote and control characters escaped. *)
Definition dquote : ascii := "034".

Definition hex_digit (n : N) : ascii :=
  if (n <? 10)%N then ascii_of_N (48 + n) else ascii_of_N (87 + n).

Fixpoint repr_body (q : ascii) (s : string) : string :=
  match s with
  | EmptyString => EmptyString
  | String c s' =>
      let rest := repr_body q s' in
      if Ascii.eqb c "\" then String "\" (String "\" rest)
      else if Ascii.eqb c q then String "\" (String c rest)
      else if Ascii.eqb c "009" then String "\" (String "t" rest)
      else if Ascii.eqb c "010" then String "\" (String "n" rest)
      else if Ascii.eqb c "013" then String "\" (String "r" rest)
      else if (code c <? 32)%N || Ascii.eqb c "127"
      then String "\" (String "x" (String (hex_digit (code c / 16))
                                     (String (hex_digit (code c mod 16)) rest)))
      else String c rest
  end.

Definition repr_str (s : string) : string :=
  let q : ascii :=
    if contains "'" s && negb (contains (String dquote EmptyString) s)
    then dquote else "'"%char in
  String q (repr_body q s +:+ String q EmptyString).

Fixpoint repr_items (l : list string) : string :=
  match l with
  | [] => ""
  | [x] => repr_str x
  | x :: l' => repr_str x +:+ ", " +:+ repr_items l'
  end.

(** [repr] of a list of strings. *)
Definition repr_list (l : list string) : string :=
  "[" +:+ repr_items l +:+ "]".

(** ** Regular expressions

    The fragment of Python's [re] syntax the script uses: literal
    characters, backslash escapes of punctuation, the dot, bracketed
    character sets with ranges and negation, the postfix operators [*], [+]
    and [?], and a leading [^].  Any other construct is refused by
    [compile], which stands for [re.error]. *)
Module re.

Inductive atom : Type :=
| Lit (c : ascii)
| Dot
| Set_ (negated : bool) (ranges : list (ascii * ascii)).

Inductive quant : Type := One | Star | Plus | Opt.

Record pattern : Type := Pattern {
  anchored : bool;
  items : list (atom * quant)
}.

Definition is_alnum (c : ascii) : bool :=
  is_upper c || is_lower c || in_range "0" "9" c.

(** The members of a character set, after the opening bracket and the
    optional [^]; returns the ranges and the text after the closing
    bracket. *)
Fixpoint parse_set (s : string) : option (list (ascii * ascii) * string) :=
  match s with
  | EmptyString => None
  | String c s1 =>
      if Ascii.eqb c "]" then Some ([], s1)
      else if Ascii.eqb c "\" || Ascii.eqb c "[" then None
      else
        match s1 with
        | String d (String e s2) =>
            if Ascii.eqb d "-" && negb (Ascii.eqb e "]")
            then if Ascii.eqb e "\" || Ascii.eqb e "[" then None
                 else if (code e <? code c)%N then None
                 else '(rs, rest) ← parse_set s2; Some ((c, e) :: rs, rest)
            else '(rs, rest) ← parse_set s1; Some ((c, c) :: rs, rest)
        | _ => '(rs, rest) ← parse_set s1; Some ((c, c) :: rs, rest)
        end
  end.

(** One atom at the head of [s]. *)
Definition parse_atom (s : string) : option (atom * string) :=
  match s with
  | EmptyString => None
  | String c s1 =>
      if Ascii.eqb c "\" then
        match s1 with
        | String d s2 => if is_alnum d then None else Some (Lit d, s2)
        | EmptyString => None
        end
      else if Ascii.eqb c "." then Some (Dot, s1)
      else if Ascii.eqb c "[" then
        match s1 with
        | String "^" s2 =>
            '(rs, rest) ← parse_set s2;
            if bool_decide (rs = []) then None else Some (Set_ true rs, rest)
        | _ =>
            '(rs, rest) ← parse_set s1;
            if bool_decide (rs = []) then None else Some (Set_ false rs, rest)
        end
      else if existsb (Ascii.eqb c)
                ["*"; "+"; "?"; "("; ")"; "|"; "{"; "}"; "^"; "$"]%char
      then None
      else Some (Lit c, s1)
  end.

(** The postfix operator after an atom, if any; a second operator in a
    row (lazy, possessive or repeated) is refused. *)
Definition parse_quant (s : string) : option (quant * string) :=
  let is_op c := existsb (Ascii.eqb c) ["*"; "+"; "?"; "{"]%char in
  let single q rest :=
    match rest with
    | String c _ => if is_op c then None else Some (q, rest)
    | EmptyString => Some (q, rest)
    end in
  match s with
  | String "*" rest => single Star rest
  | String "+" rest => single Plus rest
  | String "?" rest => single Opt rest
  | _ => Some (One, s)
  end.

Fixpoint parse_items (fuel : nat) (s : string) : option (list (atom * quant)) :=
  match s, fuel with
  | EmptyString, _ => Some []
  | _, O => None
  | _, S fuel' =>
      '(a, s1) ← parse_atom s;
      '(q, s2) ← parse_quant s1;
      its ← parse_items fuel' s2;
      Some ((a, q) :: its)
  end.

(** [re.compile(p)] *)
Definition compile (p : string) : option pattern :=
  match p with
  | String "^" p' => Pattern true <$> parse_items (String.length p') p'
  | _ => Pattern false <$> parse_items (String.length p) p
  end.

(** Does the atom accept the character?  [ic] is [re.IGNORECASE]. *)
Definition range_accepts (ic : bool) (c : ascii) (r : ascii * ascii) : bool :=
  in_range r.1 r.2 c
  || (ic && (in_range r.1 r.2 (lower_char c) || in_range r.1 r.2 (upper_char c))).

Definition accepts (ic : bool) (a : atom) (c : ascii) : bool :=
  match a with
  | Lit l => if ic then Ascii.eqb (lower_char l) (lower_char c) else Ascii.eqb l c
  | Dot => negb (Ascii.eqb c "010")
  | Set_ neg rs => xorb neg (existsb (range_accepts ic c) rs)
  end.

(** Does some prefix of the subject match the items?  The repetition
    operators try every count, so the answer does not depend on
    greediness. *)
Fixpoint match_here (ic : bool) (its : list (atom * quant)) : string → bool :=
  match its with
  | [] => λ _, true
  | (a, q) :: rest =>
      let continue := match_here ic rest in
      let step (k : string → bool) (s : string) : bool :=
        match s with
        | String c s' => accepts ic a c && k s'
        | EmptyString => false
        end in
      let many :=
        fix many (s : string) : bool :=
          continue s ||
          match s with
          | String c s' => accepts ic a c && many s'
          | EmptyString => false
          end in
      match q with
      | One => step continue
      | Star => many
      | Plus => step many
      | Opt => λ s, continue s || step continue s
      end
  end.

(** Does the pattern match at some position of the subject? *)
Fixpoint match_anywhere (ic : bool) (its : list (atom * quant)) (s : string) : bool :=
  match_here ic its s ||
  match s with
  | String _ s' => match_anywhere ic its s'
  | EmptyString => false
  end.

(** The truth value of [re.match(p, s)]: the pattern matches at the start
    of the subject. *)
Definition matches (p : pattern) (ic : bool) (s : string) : bool :=
  match_here ic (items p) s.

(** The truth value of [re.search(p, s)]: the pattern matches somewhere
    in the subject, at the start only when it is anchored. *)
Definition searches (p : pattern) (ic : bool) (s : string) : bool :=
  if anchored p then match_here ic (items p) s
  else match_anywhere ic (items p) s.

End re.

(** ** The world, effects and exceptions *)

(** The exceptions the script can meet, all below [Exception]. *)
Inductive exn : Type :=
| IndexError
| FileNotFoundError
| PermissionError
| OSError
| UnicodeDecodeError
| TimeoutExpired
| re_error.

(** [subprocess.CompletedProcess] with captured text output. *)
Record CompletedProcess : Type := {
  returncode : Z;
  stdout : string;
  stderr : string
}.

(** [sys.version_info] *)
Record version_info : Type := {
  major : Z;
  minor : Z;
  micro : Z
}.

(** What the script reads from its process and from the operating system. *)
Record World : Type := {
  platform_system : string;                   (* platform.system() *)
  environ : gmap string string;               (* os.environ *)
  read_text : string → exn + string;          (* open(path, "r").read() *)
  getcwd : string;                            (* os.getcwd() *)
  sys_version_info : version_info;            (* sys.version_info *)
  sys_version : string;                       (* sys.version *)
  sys_executable : string;                    (* sys.executable *)
  shutil_which : string → option string;      (* shutil.which(name) *)
  subprocess_run : list string → Z → exn + CompletedProcess
                       (* subprocess.run(cmd, capture_output=True,
                                         text=True, timeout=t) *)
}.

(** The effects a computation performs on the outside, in order. *)
Inductive event : Type :=
| EvOpen (path : string)
| EvWhich (bin_name : string)
| EvSpawn (cmd : list string) (timeout : Z)
| EvPrint (line : string).

(** A computation reads the world, logs its effects and returns a value or
    raises. *)
Definition Py (A : Type) : Type := World → list event * (exn + A).

#[global] Instance Py_ret : MRet Py := λ A x _, ([], inr x).

#[global] Instance Py_bind : MBind Py := λ A B f m w,
  match m w with
  | (t, inl e) => (t, inl e)
  | (t, inr x) => let '(t', r) := f x w in (t ++ t', r)
  end.

#[global] Instance Py_throw : MThrow exn Py := λ A e _, ([], inl e).

(** [try: m  except Exception as e: h e] *)
Definition try_except {A} (m : Py A) (h : exn → Py A) : Py A := λ w,
  match m w with
  | (t, inl e) => let '(t', r) := h e w in (t ++ t', r)
  | (t, inr x) => (t, inr x)
  end.

Definition ask {A} (f : World → A) : Py A := λ w, ([], inr (f w)).

Definition emit (e : event) : Py () := λ _, ([e], inr ()).

Definition lift_result {A} (e : event) (f : World → exn + A) : Py A :=
  λ w, ([e], f w).

(** The events, the outcome and the value of a computation in a world. *)
Definition trace {A} (m : Py A) (w : World) : list event := (m w).1.
Definition outcome {A} (m : Py A) (w : World) : exn + A := (m w).2.

Definition spawns (e : event) : bool :=
  match e with EvSpawn _ _ => true | _ => false end.

Definition printed (t : list event) : list string :=
  omap (λ e, match e with EvPrint l => Some l | _ => None end) t.

(** [print(line)] *)
Definition print (line : string) : Py () := emit (EvPrint line).

(** [l[0]] *)
Definition index0 {A} (l : list A) : Py A :=
  match l with
  | x :: _ => mret x
  | [] => mthrow IndexError
  end.

(** [for x in l: body x] *)
Fixpoint for_each {A} (l : list A) (body : A → Py ()) : Py () :=
  match l with
  | [] => mret ()
  | x :: l' => body x;; for_each l' body
  end.

(** [[x for x in l if cond x]] *)
Fixpoint comprehension_if {A} (l : list A) (cond : A → Py bool) : Py (list A) :=
  match l with
  | [] => mret []
  | x :: l' =>
      b ← cond x;
      rest ← comprehension_if l' cond;
      mret (if b : bool then x :: rest else rest)
  end.

(** Truth value of [re.match(p, s)] and of [re.search(p, s, flags)]. *)
Definition re_match (p s : string) (ignorecase : bool) : Py bool :=
  match re.compile p with
  | Some r => mret (re.matches r ignorecase s)
  | None => mthrow re_error
  end.

Definition re_search (p s : string) (ignorecase : bool) : Py bool :=
  match re.compile p with
  | Some r => mret (re.searches r ignorecase s)
  | None => mthrow re_error
  end.

(** ** [os.path] on POSIX *)

Definition isabs (s : string) : bool := startswith "/" s.

(** [os.path.join(a, b)] *)
Definition join (a b : string) : string :=
  if startswith "/" b then b
  else if negb (truthy a) || endswith_sep a then a +:+ b
  else a +:+ "/" +:+ b.

Definition normpath_step (initial_slashes : nat) (new_comps : list string)
    (comp : string) : list string :=
  if bool_decide (comp = "") || bool_decide (comp = ".") then new_comps
  else if bool_decide (comp ≠ "..")
          || (bool_decide (initial_slashes = 0%nat) && bool_decide (new_comps = []))
          || (bool_decide (new_comps ≠ []) && bool_decide (list.last new_comps = Some ".."))
  then new_comps ++ [comp]
  else if bool_decide (new_comps ≠ []) then removelast new_comps
  else new_comps.

Fixpoint string_of_seps (n : nat) : string :=
  match n with O => "" | S n' => String "/" (string_of_seps n') end.

(** [os.path.normpath(path)] *)
Definition normpath (path : string) : string :=
  if bool_decide (path = "") then "."
  else
    let initial_slashes : nat :=
      if startswith "/" path
      then (if startswith "//" path && negb (startswith "///" path)
            then 2%nat else 1%nat)
      else 0%nat in
    let comps := split_sep path in
    let new_comps := fold_left (normpath_step initial_slashes) comps [] in
    let path := string_of_seps initial_slashes +:+ join_sep new_comps in
    if truthy path then path else ".".

(** [os.path.abspath(path)] *)
Definition abspath (path : string) : Py string :=
  if isabs path then mret (normpath path)
  else cwd ← ask getcwd; mret (normpath (join cwd path)).

(** ** The script *)

(** Python's order on tuples of integers: the first position where the
    tuples differ decides, and a proper prefix is smaller. *)
Fixpoint tuple_ge (a b : list Z) : bool :=
  match a, b with
  | x :: a', y :: b' => if x =? y then tuple_ge a' b' else y <? x
  | _, [] => true
  | [], _ :: _ => false
  end.

(** The dataclass; [fix_] is the field [fix]. *)
Record CheckResult : Type := {
  name : string;
  ok : bool;
  details : string;
  fix_ : string;
  required : bool
}.

Definition run (cmd : list string) (timeout : option Z)
  : Py (Z * string * string) :=
  let timeout := default 5 timeout in
  try_except
    (p ← lift_result (EvSpawn cmd timeout) (λ w, subprocess_run w cmd timeout);
     mret (returncode p, strip (stdout p), strip (stderr p)))
    (λ e, match e with
          | FileNotFoundError =>
              c0 ← index0 cmd;
              mret (127, "", "not found: " +:+ c0)
          | TimeoutExpired => mret (124, "", "timeout")
          | _ => mthrow e
          end).

Definition which (bin_name : string) : Py (option string) :=
  emit (EvWhich bin_name);; ask (λ w, shutil_which w bin_name).

Definition is_wsl : Py bool :=
  v ← ask (λ w, environ w !! "WSL_DISTRO_NAME");
  if truthy_opt v then mret true
  else
    try_except
      (text ← lift_result (EvOpen "/proc/version") (λ w, read_text w "/proc/version");
       mret (contains "microsoft" (lower text)))
      (λ _, mret false).

Definition is_windows_native : Py bool :=
  s ← ask platform_system; mret (String.eqb (lower s) "windows").

Definition is_macos : Py bool :=
  s ← ask platform_system; mret (String.eqb (lower s) "darwin").

Definition is_linux : Py bool :=
  s ← ask platform_system; mret (String.eqb (lower s) "linux").

Definition project_is_on_linux_fs (project_path : string) : Py bool :=
  p ← abspath project_path;
  m ← re_match "^/mnt/[a-zA-Z]/" p false;
  mret (negb m).

Definition patterns : list string :=
  [ "/mnt/c/Program Files/nodejs";
    "/mnt/c/Program Files \(x86\)/nodejs";
    "/mnt/c/Users/[^/]+/AppData/Roaming/npm";
    "/mnt/c/Users/[^/]+/AppData/Local/Microsoft/WindowsApps";
    "/mnt/c/Users/[^/]+/AppData/Local/Programs/Python" ].

Definition path_contains_windows_bins : Py (list string) :=
  path ← ask (λ w, default "" (environ w !! "PATH"));
  comprehension_if patterns (λ p, re_search p path true).

Definition check_os : Py CheckResult :=
  win ← is_windows_native;
  if win : bool then
    s ← ask platform_system;
    mret {| name := "OS is Linux / WSL / macOS (not Windows-native)";
            ok := false;
            details := "Detected: " +:+ s;
            fix_ := "Run this script inside WSL/Linux/macOS terminal.";
            required := true |}
  else
    wsl ← is_wsl;
    kind ← (if wsl : bool then mret "WSL"
            else mac ← is_macos; mret (if mac : bool then "macOS" else "Linux"));
    mret {| name := "OS is Linux / WSL / macOS (not Windows-native)";
            ok := true;
            details := "Detected: " +:+ kind;
            fix_ := "";
            required := true |}.

Definition check_project_path (project_path : string) : Py CheckResult :=
  ok ← project_is_on_linux_fs project_path;
  p ← abspath project_path;
  mret {| name := "Project directory is on Linux filesystem (not /mnt/c)";
          ok := ok;
          details := p;
          fix_ := "Move project into Linux FS (e.g. /home/<user>/project).";
          required := true |}.

Definition check_python_version : Py CheckResult :=
  vi ← ask sys_version_info;
  let ok := tuple_ge [major vi; minor vi] [3; 10] in
  version ← ask sys_version;
  v0 ← index0 (split_ws version);
  exe ← ask sys_executable;
  let details := v0 +:+ " (" +:+ exe +:+ ")" in
  mret {| name := "Python version >= 3.10";
          ok := ok;
          details := details;
          fix_ := "Install Python 3.10+ and activate the correct uv venv.";
          required := true |}.

Definition check_bin (name : string) (required : bool) (label : string)
  : Py CheckResult :=
  p ← which name;
  let ok := bool_decide (p ≠ None) in
  mret {| name := label +:+ " is installed";
          ok := ok;
          details := or_else p "not found";
          fix_ := "Install `" +:+ label
                  +:+ "` in WSL/Linux/macOS and ensure it is on PATH.";
          required := required |}.

Definition check_node_nvm (strict : bool) : Py CheckResult :=
  node ← which "node";
  let ok := match node with
            | Some n => truthy n && contains ".nvm" n
            | None => false
            end in
  mret {| name := "Node.js is installed via nvm";
          ok := ok;
          details := or_else node "node not found";
          fix_ := "Install Node.js via nvm and run `nvm use`.";
          required := strict |}.

Definition check_windows_path_hygiene (strict : bool) : Py CheckResult :=
  hits ← path_contains_windows_bins;
  let ok := bool_decide (List.length hits = 0%nat) in
  mret {| name := "WSL PATH does not include Windows Node/Python locations";
          ok := ok;
          details := if ok then "clean" else "matches: " +:+ repr_list hits;
          fix_ := "Remove Windows runtime paths from WSL PATH (~/.bashrc, ~/.zshrc).";
          required := strict |}.

Definition nonempty {A} (l : list A) : bool :=
  match l with [] => false | _ :: _ => true end.

Definition print_entry (r : CheckResult) : Py () :=
  let status := if ok r then "✅" else "❌" in
  let req := if required r then "REQUIRED" else "OPTIONAL" in
  print (status +:+ " [" +:+ req +:+ "] " +:+ name r);;
  (if truthy (details r) then print ("    - " +:+ details r) else mret ());;
  (if negb (ok r) then print ("    - Fix: " +:+ fix_ r) else mret ());;
  print "".

Definition failed_required (results : list CheckResult) : list CheckResult :=
  List.filter (λ r, required r && negb (ok r)) results.

Definition failed_optional (results : list CheckResult) : list CheckResult :=
  List.filter (λ r, negb (required r) && negb (ok r)) results.

Definition print_results (results : list CheckResult) : Py Z :=
  for_each results print_entry;;
  if nonempty (failed_required results) then
    print ("❌ Environment check FAILED ("
           +:+ pretty (List.length (failed_required results))
           +:+ " required issue(s))");;
    mret 1
  else if nonempty (failed_optional results) then
    print ("⚠️ Environment check PASSED with warnings ("
           +:+ pretty (List.length (failed_optional results)) +:+ ")");;
    mret 0
  else
    print "✅ Environment check PASSED";;
    mret 0.

(** [project] is the value of [--project] when given, [strict] whether
    [--strict] is. *)
Definition main (project : option string) (strict : bool) : Py Z :=
  cwd ← ask getcwd;
  let project := default cwd project in
  c1 ← check_os;
  c2 ← check_project_path project;
  c3 ← check_python_version;
  c4 ← check_bin "node" true "Node.js";
  c5 ← check_bin "uv" true "uv";
  c6 ← check_bin "gh" true "GitHub CLI (gh)";
  c7 ← check_bin "claude" false "Claude Code (claude)";
  c8 ← check_bin "codex" false "OpenAI Codex (codex)";
  c9 ← check_bin "gemini" false "Gemini CLI (gemini)";
  c10 ← check_node_nvm strict;
  c11 ← check_windows_path_hygiene strict;
  print_results [c1; c2; c3; c4; c5; c6; c7; c8; c9; c10; c11].

(** ** Views of the report used in the statements *)

(** The lines one entry of the report takes. *)
Definition entry_lines (r : CheckResult) : list string :=
  [ (if ok r then "✅" else "❌") +:+ " ["
      +:+ (if required r then "REQUIRED" else "OPTIONAL") +:+ "] " +:+ name r ]
  ++ (if truthy (details r) then ["    - " +:+ details r] else [])
  ++ (if ok r then [] else ["    - Fix: " +:+ fix_ r])
  ++ [""].

(** The last line of the report and the exit status, read off the two
    lists of failures. *)
Definition summary (rs : list CheckResult) : string :=
  if nonempty (failed_required rs) then
    "❌ Environment check FAILED ("
      +:+ pretty (List.length (failed_required rs)) +:+ " required issue(s))"
  else if nonempty (failed_optional rs) then
    "⚠️ Environment check PASSED with warnings ("
      +:+ pretty (List.length (failed_optional rs)) +:+ ")"
  else "✅ Environment check PASSED".

Definition exit_status (rs : list CheckResult) : Z :=
  if nonempty (failed_required rs) then 1 else 0.

(** What the exit status may depend on: the pair [(ok, required)]. *)
Definition status_pair (r : CheckResult) : bool * bool := (ok r, required r).

(** ** Sample inputs

    A Linux host as in the end-to-end scenario of the specification, and
    three results: a required check that passed, a required one that
    failed and an optional one that failed. *)
Definition host (system : string) (env : gmap string string)
    (proc_version : exn + string) (bins : gmap string string) : World := {|
  platform_system := system;
  environ := env;
  read_text := λ path,
    if String.eqb path "/proc/version" then proc_version
    else inl FileNotFoundError;
  getcwd := "/home/dev";
  sys_version_info := {| major := 3; minor := 11; micro := 4 |};
  sys_version := "3.11.4 (main, Jun  7 2023, 00:00:00) [GCC 12.2.0]";
  sys_executable := "/usr/bin/python3";
  shutil_which := λ n, bins !! n;
  subprocess_run := λ cmd t,
    match cmd with
    | "sleep" :: _ => inl TimeoutExpired
    | "true" :: _ => inr {| returncode := 0; stdout := ""; stderr := "" |}
    | _ => inl FileNotFoundError
    end
|}.

Definition tools : gmap string string :=
  {[ "node" := "/home/dev/.nvm/versions/node/v20/bin/node";
     "uv" := "/home/dev/.local/bin/uv" ]}.

Definition linux_kernel : string :=
  "Linux version 6.1.0-13-amd64 (gcc-12 12.2.0) #1 SMP".

Definition linux_host : World :=
  host "Linux" {[ "PATH" := "/mnt/c/Program Files/nodejs:/usr/bin" ]}
       (inr linux_kernel) tools.

(** The host of the scenario with the GitHub CLI installed as well. *)
Definition scenario_host : World :=
  host "Linux" {[ "PATH" := "/mnt/c/Program Files/nodejs:/usr/bin" ]}
       (inr linux_kernel) (<["gh" := "/usr/bin/gh"]> tools).

(** A Linux host where [WSL_DISTRO_NAME] is set to the empty string. *)
Definition empty_name_host : World :=
  host "Linux" {[ "WSL_DISTRO_NAME" := "" ]} (inr linux_kernel) tools.

(** WSL 2, seen through the kernel text only and through both signals. *)
Definition wsl_kernel_host : World :=
  host "Linux" {[ "WSL_DISTRO_NAME" := "" ]}
       (inr "Linux version 5.15.90.1-Microsoft-standard-WSL2 (gcc 11.2.0)")
       tools.

Definition wsl_host : World :=
  host "Linux" {[ "WSL_DISTRO_NAME" := "Ubuntu" ]}
       (inr "Linux version 5.15.90.1-microsoft-standard-WSL2 (gcc 11.2.0)")
       tools.

(** macOS has no kernel-version file; Windows neither. *)
Definition mac_host : World :=
  host "Darwin" {[ "PATH" := "/usr/bin:/bin" ]} (inl FileNotFoundError) tools.

Definition windows_host : World :=
  host "Windows" {[ "WSL_DISTRO_NAME" := "Ubuntu" ]} (inl FileNotFoundError) ∅.

Definition passed_uv : CheckResult := {|
  name := "uv is installed";
  ok := true;
  details := "/home/dev/.local/bin/uv";
  fix_ := "Install `uv` in WSL/Linux/macOS and ensure it is on PATH.";
  required := true
|}.

Definition failed_gh : CheckResult := {|
  name := "GitHub CLI (gh) is installed";
  ok := false;
  details := "not found";
  fix_ := "Install `GitHub CLI (gh)` in WSL/Linux/macOS and ensure it is on PATH.";
  required := true
|}.

Definition failed_codex : CheckResult := {|
  name := "OpenAI Codex (codex) is installed";
  ok := false;
  details := "not found";
  fix_ := "Install `OpenAI Codex (codex)` in WSL/Linux/macOS and ensure it is on PATH.";
  required := false
|}.

(** ** Notions the statements use *)

(** The text has the vendor marker in some mix of cases. *)
Definition has_marker (text : string) : Prop :=
  ∃ pre mid post, text = pre +:+ mid +:+ post ∧ lower mid = "microsoft".

(** The two signals of the compatibility layer: the variable
    [WSL_DISTRO_NAME] holds a non-empty value, or the kernel-version file
    can be read and its text has the marker. *)
Definition distro_name_given (w : World) : Prop :=
  ∃ v, environ w !! "WSL_DISTRO_NAME" = Some v ∧ v ≠ "".

Definition kernel_has_marker (w : World) : Prop :=
  ∃ text, read_text w "/proc/version" = inr text ∧ has_marker text.

Definition wsl_signal (w : World) : Prop :=
  distro_name_given w ∨ kernel_has_marker w.

(** The world with another environment. *)
Definition with_environ (env : gmap string string) (w : World) : World := {|
  platform_system := platform_system w;
  environ := env;
  read_text := read_text w;
  getcwd := getcwd w;
  sys_version_info := sys_version_info w;
  sys_version := sys_version w;
  sys_executable := sys_executable w;
  shutil_which := shutil_which w;
  subprocess_run := subprocess_run w
|}.

(** The world with another interpreter version. *)
Definition with_version (vi : version_info) (w : World) : World := {|
  platform_system := platform_system w;
  environ := environ w;
  read_text := read_text w;
  getcwd := getcwd w;
  sys_version_info := vi;
  sys_version := sys_version w;
  sys_executable := sys_executable w;
  shutil_which := shutil_which w;
  subprocess_run := subprocess_run w
|}.

(** [(major, minor) >= (3, 10)] in the lexicographic order. *)
Definition at_least_3_10 (vi : version_info) : Prop :=
  3 < major vi ∨ (major vi = 3 ∧ 10 ≤ minor vi).

(** A letter of either case. *)
Definition is_letter (c : ascii) : bool := is_lower c || is_upper c.

(** The path begins with [/mnt/], one letter and a slash. *)
Definition on_drive_mount (p : string) : Prop :=
  ∃ c rest, p = "/mnt/" +:+ String c (String "/" rest) ∧ is_letter c = true.

(** The value of [os.path.abspath(path)] in a world. *)
Definition absolute_form (w : World) (path : string) : string :=
  if isabs path then normpath path else normpath (join (getcwd w) path).

(** The value of [os.environ.get("PATH", "")] in a world. *)
Definition search_path (w : World) : string :=
  default "" (environ w !! "PATH").

(** The pattern is found in the text by [re.search] with [re.IGNORECASE]. *)
Definition found (p text : string) : Prop :=
  ∀ w, outcome (re_search p text true) w = inr true.

(** The patterns of the list that are found in the text, in the order of
    the list. *)
Definition found_patterns (text : string) : list string :=
  List.filter
    (λ p, match re.compile p with
          | Some r => re.searches r true text
          | None => false
          end)
    patterns.

(** ** What a pattern matches

    [Matches ic its m]: the items match exactly the text [m].  This is the
    usual reading of a regular expression, against which the matcher of
    [re] is checked below. *)
Inductive Matches (ic : bool) : list (re.atom * re.quant) → string → Prop :=
| Matches_nil :
    Matches ic [] ""
| Matches_one a its c m :
    re.accepts ic a c = true → Matches ic its m →
    Matches ic ((a, re.One) :: its) (String c m)
| Matches_star_stop a its m :
    Matches ic its m → Matches ic ((a, re.Star) :: its) m
| Matches_star_more a its c m :
    re.accepts ic a c = true → Matches ic ((a, re.Star) :: its) m →
    Matches ic ((a, re.Star) :: its) (String c m)
| Matches_plus a its c m :
    re.accepts ic a c = true → Matches ic ((a, re.Star) :: its) m →
    Matches ic ((a, re.Plus) :: its) (String c m)
| Matches_opt_skip a its m :
    Matches ic its m → Matches ic ((a, re.Opt) :: its) m
| Matches_opt_take a its c m :
    re.accepts ic a c = true → Matches ic its m →
    Matches ic ((a, re.Opt) :: its) (String c m).

(** The items of a pattern without operators: one literal per character. *)
Fixpoint literal_items (t : string) : list (re.atom * re.quant) :=
  match t with
  | EmptyString => []
  | String c t' => (re.Lit c, re.One) :: literal_items t'
  end.

(** The items of [t1[^/]+t2] for two texts without operators. *)
Definition user_dir_items (t1 t2 : string) : list (re.atom * re.quant) :=
  literal_items t1
  ++ (re.Set_ true [("/", "/")]%char, re.Plus) :: literal_items t2.

(** Every character of the string passes the test. *)
Fixpoint all_chars (f : ascii → bool) (s : string) : bool :=
  match s with
  | EmptyString => true
  | String c s' => f c && all_chars f s'
  end.

(** A non-empty name without a slash, such as a user's directory. *)
Definition is_segment (s : string) : Prop :=
  s ≠ "" ∧ all_chars (λ c, negb (Ascii.eqb c "/")) s = true.

(** The two texts are equal up to the case of their letters. *)
Definition same_nocase (a b : string) : Prop := lower a = lower b.

(** The text has a part equal to [t] up to case. *)
Definition has_nocase (t text : string) : Prop :=
  ∃ pre m post, text = pre +:+ m +:+ post ∧ same_nocase m t.

(** The text has a part made of [t1], a segment and [t2], up to case. *)
Definition has_user_dir (t1 t2 text : string) : Prop :=
  ∃ pre a user b post,
    text = pre +:+ (a +:+ user +:+ b) +:+ post
    ∧ same_nocase a t1 ∧ is_segment user ∧ same_nocase b t2.

(** ** Notions for the rest of the script *)

(** The text has [t] as a part. *)
Definition has_substring (t text : string) : Prop :=
  ∃ pre post, text = pre +:+ t +:+ post.



(** The files a computation opened and the names it looked up, in order. *)
Definition opened (t : list event) : list string :=
  omap (λ e, match e with EvOpen p => Some p | _ => None end) t.

Definition looked_up (t : list event) : list string :=
  omap (λ e, match e with EvWhich n => Some n | _ => None end) t.

(** The world with another lookup of executables. *)
Definition with_which (f : string → option string) (w : World) : World := {|
  platform_system := platform_system w;
  environ := environ w;
  read_text := read_text w;
  getcwd := getcwd w;
  sys_version_info := sys_version_info w;
  sys_version := sys_version w;
  sys_executable := sys_executable w;
  shutil_which := f;
  subprocess_run := subprocess_run w
|}.

(** The world with another system name. *)
Definition with_system (s : string) (w : World) : World := {|
  platform_system := s;
  environ := environ w;
  read_text := read_text w;
  getcwd := getcwd w;
  sys_version_info := sys_version_info w;
  sys_version := sys_version w;
  sys_executable := sys_executable w;
  shutil_which := shutil_which w;
  subprocess_run := subprocess_run w
|}.

(** The world with another version string. *)
Definition with_version_string (s : string) (w : World) : World := {|
  platform_system := platform_system w;
  environ := environ w;
  read_text := read_text w;
  getcwd := getcwd w;
  sys_version_info := sys_version_info w;
  sys_version := s;
  sys_executable := sys_executable w;
  shutil_which := shutil_which w;
  subprocess_run := subprocess_run w
|}.

(** A host whose commands complete, fail for lack of permission, or are
    missing. *)
Definition command_host : World := {|
  platform_system := "Linux";
  environ := ∅;
  read_text := λ _, inl FileNotFoundError;
  getcwd := "/home/dev";
  sys_version_info := {| major := 3; minor := 12; micro := 0 |};
  sys_version := "3.12.0 (main) [GCC]";
  sys_executable := "/usr/bin/python3";
  shutil_which := λ _, None;
  subprocess_run := λ cmd t,
    match cmd with
    | "node" :: _ =>
        inr {| returncode := 0;
               stdout := String "010" ("  v20.11.0 " +:+ String "010" "");
               stderr := "" |}
    | "locked" :: _ => inl PermissionError
    | _ => inl FileNotFoundError
    end
|}.

(** The string is made of white space only, or has none. *)
Definition blank (s : string) : bool := all_chars is_space s.

(** The checks of [main], in the order of its list. *)
Definition checks (project : string) (strict : bool) : list (Py CheckResult) :=
  [ check_os;
    check_project_path project;
    check_python_version;
    check_bin "node" true "Node.js";
    check_bin "uv" true "uv";
    check_bin "gh" true "GitHub CLI (gh)";
    check_bin "claude" false "Claude Code (claude)";
    check_bin "codex" false "OpenAI Codex (codex)";
    check_bin "gemini" false "Gemini CLI (gemini)";
    check_node_nvm strict;
    check_windows_path_hygiene strict ].

(** [node] resolves to a path under a [.nvm] directory. *)
Definition node_via_nvm (w : World) : Prop :=
  ∃ p, shutil_which w "node" = Some p ∧ has_substring ".nvm" p.

(** Some pattern of the scanner is found in the search path. *)
Definition windows_in_path (w : World) : Prop :=
  ∃ p, p ∈ patterns ∧ found p (search_path w).

(** What makes [main] fail: a Windows host, a project on a drive mount, an
    old interpreter, a missing required tool, and under [--strict] a
    [node] that is not under [.nvm] or a Windows location in the search
    path. *)
Definition blocked (project : option string) (strict : bool) (w : World) : Prop :=
  same_nocase (platform_system w) "Windows"
  ∨ on_drive_mount (absolute_form w (default (getcwd w) project))
  ∨ ¬ at_least_3_10 (sys_version_info w)
  ∨ shutil_which w "node" = None
  ∨ shutil_which w "uv" = None
  ∨ shutil_which w "gh" = None
  ∨ (strict = true ∧ (¬ node_via_nvm w ∨ windows_in_path w)).

(** A result that makes the run fail: required and not ok. *)
Definition failing (r : CheckResult) : Prop := required r = true ∧ ok r = false.

(** A component of a normal path: not empty, not [.] nor [..], without a
    slash. *)
Definition sep_free (s : string) : bool :=
  all_chars (λ c, negb (Ascii.eqb c "/")) s.

Definition clean (c : string) : Prop :=
  c ≠ "" ∧ c ≠ "." ∧ c ≠ ".." ∧ sep_free c = true.

(** * Properties *)

(** ** The monad *)

Ltac py_unfold :=
  unfold mbind, Py_bind, mret, Py_ret, mthrow, Py_throw, ask, emit,
    lift_result, print, try_except in *.

Lemma bind_run {A B} (m : Py A) (f : A → Py B) (w : World) :
  (m ≫= f) w =
  match m w with
  | (t, inl e) => (t, inl e)
  | (t, inr x) => let '(t', r) := f x w in (t ++ t', r)
  end.
Proof. reflexivity. Qed.

Lemma bind_run_inr {A B} (m : Py A) (f : A → Py B) w t x :
  m w = (t, inr x) → (m ≫= f) w = (t ++ (f x w).1, (f x w).2).
Proof. intros Hm. rewrite bind_run, Hm. by destruct (f x w). Qed.

Lemma printed_app t1 t2 : printed (t1 ++ t2) = printed t1 ++ printed t2.
Proof. apply omap_app. Qed.

Lemma printed_prints ls : printed (EvPrint <$> ls) = ls.
Proof.
  induction ls as [|l ls IH]; [done|].
  rewrite fmap_cons. unfold printed in *. cbn [omap list_omap]. by rewrite IH.
Qed.

(** ** Strings *)

Lemma startswith_spec p s :
  startswith p s = true ↔ ∃ rest, s = p +:+ rest.
Proof.
  revert s. induction p as [|a p IH]; intros s; cbn.
  - split; [intros _; by exists s|done].
  - destruct s as [|b s].
    + split; [done|]. by intros [rest ?].
    + rewrite andb_true_iff, IH. split.
      * intros [Hab [rest ->]]. apply Ascii.eqb_eq in Hab as ->. by exists rest.
      * intros [rest Heq]. injection Heq as -> ->.
        split; [apply Ascii.eqb_refl|by exists rest].
Qed.

Lemma contains_spec needle hay :
  contains needle hay = true ↔ ∃ pre post, hay = pre +:+ needle +:+ post.
Proof.
  induction hay as [|c hay IH]; cbn [contains]; rewrite orb_true_iff.
  - rewrite startswith_spec. split.
    + intros [[rest H]|?]; [|done]. by exists "", rest.
    + intros (pre & post & H). destruct pre; [|done].
      left. by exists post.
  - rewrite startswith_spec, IH. split.
    + intros [[rest H]|(pre & post & ->)].
      * by exists "", rest.
      * by exists (String c pre), post.
    + intros (pre & post & H). destruct pre as [|c' pre].
      * left. by exists post.
      * right. injection H as -> ->. by exists pre, post.
Qed.

Lemma lower_app a b : lower (a +:+ b) = lower a +:+ lower b.
Proof. induction a as [|c a IH]; [done|]. simpl. by rewrite IH. Qed.

Lemma lower_split s a b :
  lower s = a +:+ b → ∃ a' b', s = a' +:+ b' ∧ lower a' = a ∧ lower b' = b.
Proof.
  revert s. induction a as [|c a IH]; intros s H.
  - by exists "", s.
  - destruct s as [|d s]; [done|]. cbn in H. injection H as Hc Hs.
    destruct (IH _ Hs) as (a' & b' & -> & <- & <-).
    exists (String d a'), b'. cbn. by rewrite Hc.
Qed.

Lemma contains_lower_marker text :
  contains "microsoft" (lower text) = true ↔ has_marker text.
Proof.
  rewrite contains_spec. unfold has_marker. split.
  - intros (pre & post & H).
    apply lower_split in H as (pre' & rest & -> & _ & H).
    apply lower_split in H as (mid & post' & -> & H & _).
    by exists pre', mid, post'.
  - intros (pre & mid & post & -> & H).
    exists (lower pre), (lower post). by rewrite !lower_app, H.
Qed.

Lemma truthy_opt_spec v :
  truthy_opt v = true ↔ ∃ s, v = Some s ∧ s ≠ "".
Proof.
  destruct v as [[|c s]|]; cbn.
  - split; [done|]. by intros (s & [= <-] & ?).
  - split; [|done]. intros _. by eexists.
  - split; [done|]. by intros (s & ? & _).
Qed.

Lemma append_cons c m rest : String c m +:+ rest = String c (m +:+ rest).
Proof. reflexivity. Qed.

Lemma append_assoc (a b c : string) : (a +:+ b) +:+ c = a +:+ b +:+ c.
Proof.
  induction a as [|x a IH]; [done|].
  change (String x a +:+ b) with (String x (a +:+ b)).
  change (String x (a +:+ b) +:+ c) with (String x ((a +:+ b) +:+ c)).
  by rewrite IH.
Qed.

Lemma append_empty_r (a : string) : a +:+ "" = a.
Proof.
  induction a as [|x a IH]; [done|].
  change (String x a +:+ "") with (String x (a +:+ "")). by rewrite IH.
Qed.



(** ** The matcher against the meaning of patterns *)

Lemma match_here_one ic a its s :
  re.match_here ic ((a, re.One) :: its) s =
  match s with
  | String c s' => re.accepts ic a c && re.match_here ic its s'
  | EmptyString => false
  end.
Proof. reflexivity. Qed.

Lemma match_here_star ic a its s :
  re.match_here ic ((a, re.Star) :: its) s =
  re.match_here ic its s ||
  match s with
  | String c s' => re.accepts ic a c && re.match_here ic ((a, re.Star) :: its) s'
  | EmptyString => false
  end.
Proof. by destruct s. Qed.

Lemma match_here_plus ic a its s :
  re.match_here ic ((a, re.Plus) :: its) s =
  match s with
  | String c s' => re.accepts ic a c && re.match_here ic ((a, re.Star) :: its) s'
  | EmptyString => false
  end.
Proof. by destruct s. Qed.

Lemma match_here_opt ic a its s :
  re.match_here ic ((a, re.Opt) :: its) s =
  re.match_here ic its s ||
  match s with
  | String c s' => re.accepts ic a c && re.match_here ic its s'
  | EmptyString => false
  end.
Proof. reflexivity. Qed.

Lemma match_here_complete ic its m :
  Matches ic its m → ∀ rest, re.match_here ic its (m +:+ rest) = true.
Proof.
  induction 1 as [|a its c m Ha _ IH|a its m _ IH|a its c m Ha _ IH
                 |a its c m Ha _ IH|a its m _ IH|a its c m Ha _ IH];
    intros rest.
  - reflexivity.
  - rewrite append_cons. by rewrite match_here_one, Ha, IH.
  - by rewrite match_here_star, IH.
  - rewrite append_cons. rewrite match_here_star, Ha, IH. apply orb_true_r.
  - rewrite append_cons. by rewrite match_here_plus, Ha, IH.
  - by rewrite match_here_opt, IH.
  - rewrite append_cons. rewrite match_here_opt, Ha, IH. apply orb_true_r.
Qed.

Lemma match_here_star_sound ic a its :
  (∀ s, re.match_here ic its s = true →
        ∃ m rest, s = m +:+ rest ∧ Matches ic its m) →
  ∀ s, re.match_here ic ((a, re.Star) :: its) s = true →
       ∃ m rest, s = m +:+ rest ∧ Matches ic ((a, re.Star) :: its) m.
Proof.
  intros IH s. induction s as [|c s IHs]; rewrite match_here_star; intros H.
  - apply orb_prop in H as [H|H]; [|done].
    destruct (IH _ H) as (m & rest & -> & Hm).
    exists m, rest. split; [done|]. by constructor.
  - apply orb_prop in H as [H|H].
    + destruct (IH _ H) as (m & rest & Heq & Hm).
      exists m, rest. split; [done|]. by constructor.
    + apply andb_prop in H as [Ha H].
      destruct (IHs H) as (m & rest & -> & Hm).
      exists (String c m), rest. split; [done|]. by apply Matches_star_more.
Qed.

Lemma match_here_sound ic its s :
  re.match_here ic its s = true → ∃ m rest, s = m +:+ rest ∧ Matches ic its m.
Proof.
  revert s. induction its as [|[a q] its IH]; intros s H.
  - exists "", s. split; [done|]. constructor.
  - destruct q.
    + rewrite match_here_one in H. destruct s as [|c s]; [done|].
      apply andb_prop in H as [Ha H].
      destruct (IH _ H) as (m & rest & -> & Hm).
      exists (String c m), rest. split; [done|]. by constructor.
    + by apply match_here_star_sound.
    + rewrite match_here_plus in H. destruct s as [|c s]; [done|].
      apply andb_prop in H as [Ha H].
      destruct (match_here_star_sound ic a its IH _ H) as (m & rest & -> & Hm).
      exists (String c m), rest. split; [done|]. by constructor.
    + rewrite match_here_opt in H. apply orb_prop in H as [H|H].
      * destruct (IH _ H) as (m & rest & -> & Hm).
        exists m, rest. split; [done|]. by constructor.
      * destruct s as [|c s]; [done|]. apply andb_prop in H as [Ha H].
        destruct (IH _ H) as (m & rest & -> & Hm).
        exists (String c m), rest. split; [done|]. by apply Matches_opt_take.
Qed.

(** [re.match]: some prefix of the subject is matched by the items. *)
Lemma match_here_spec ic its s :
  re.match_here ic its s = true ↔ ∃ m rest, s = m +:+ rest ∧ Matches ic its m.
Proof.
  split; [apply match_here_sound|].
  intros (m & rest & -> & Hm). by apply match_here_complete.
Qed.

(** [re.search]: some part of the subject is matched by the items. *)
Lemma match_anywhere_spec ic its s :
  re.match_anywhere ic its s = true
  ↔ ∃ pre m post, s = pre +:+ m +:+ post ∧ Matches ic its m.
Proof.
  induction s as [|c s IH]; cbn [re.match_anywhere]; rewrite orb_true_iff.
  - rewrite match_here_spec. split.
    + intros [(m & rest & H & Hm)|?]; [|done]. by exists "", m, rest.
    + intros (pre & m & post & H & Hm). left.
      destruct pre; [|done]. by exists m, post.
  - rewrite match_here_spec, IH. split.
    + intros [(m & rest & H & Hm)|(pre & m & post & -> & Hm)].
      * by exists "", m, rest.
      * by exists (String c pre), m, post.
    + intros (pre & m & post & H & Hm). destruct pre as [|c' pre].
      * left. by exists m, post.
      * right. injection H as -> ->. by exists pre, m, post.
Qed.

Lemma Matches_app ic its1 its2 m :
  Matches ic (its1 ++ its2) m
  ↔ ∃ m1 m2, m = m1 +:+ m2 ∧ Matches ic its1 m1 ∧ Matches ic its2 m2.
Proof.
  split.
  - intros H. remember (its1 ++ its2) as its eqn:Hits.
    revert its1 Hits.
    induction H as [|a its c m Ha H IH|a its m H IH|a its c m Ha H IH
                   |a its c m Ha H IH|a its m H IH|a its c m Ha H IH];
      intros its1 Hits.
    + destruct its1; [|done]. cbn in Hits. subst its2.
      exists "", "". repeat split; constructor.
    + destruct its1 as [|i its1]; cbn in Hits.
      * subst its2. exists "", (String c m).
        split; [done|]. split; [constructor|by constructor].
      * injection Hits as <- ->.
        destruct (IH its1 eq_refl) as (m1 & m2 & -> & H1 & H2).
        exists (String c m1), m2. split; [done|]. split; [by constructor|done].
    + destruct its1 as [|i its1]; cbn in Hits.
      * subst its2. exists "", m.
        split; [done|]. split; [constructor|by constructor].
      * injection Hits as <- ->.
        destruct (IH its1 eq_refl) as (m1 & m2 & -> & H1 & H2).
        exists m1, m2. split; [done|]. split; [by constructor|done].
    + destruct its1 as [|i its1]; cbn in Hits.
      * subst its2. exists "", (String c m).
        split; [done|]. split; [constructor|by apply Matches_star_more].
      * injection Hits as <- ->.
        destruct (IH ((a, re.Star) :: its1) eq_refl) as (m1 & m2 & -> & H1 & H2).
        exists (String c m1), m2. split; [done|].
        split; [by apply Matches_star_more|done].
    + destruct its1 as [|i its1]; cbn in Hits.
      * subst its2. exists "", (String c m).
        split; [done|]. split; [constructor|by constructor].
      * injection Hits as <- ->.
        destruct (IH ((a, re.Star) :: its1) eq_refl) as (m1 & m2 & -> & H1 & H2).
        exists (String c m1), m2. split; [done|]. split; [by constructor|done].
    + destruct its1 as [|i its1]; cbn in Hits.
      * subst its2. exists "", m.
        split; [done|]. split; [constructor|by constructor].
      * injection Hits as <- ->.
        destruct (IH its1 eq_refl) as (m1 & m2 & -> & H1 & H2).
        exists m1, m2. split; [done|]. split; [by constructor|done].
    + destruct its1 as [|i its1]; cbn in Hits.
      * subst its2. exists "", (String c m).
        split; [done|]. split; [constructor|by apply Matches_opt_take].
      * injection Hits as <- ->.
        destruct (IH its1 eq_refl) as (m1 & m2 & -> & H1 & H2).
        exists (String c m1), m2. split; [done|].
        split; [by apply Matches_opt_take|done].
  - intros (m1 & m2 & -> & H1 & H2).
    induction H1 as [|a its c m Ha H IH|a its m H IH|a its c m Ha H IH
                    |a its c m Ha H IH|a its m H IH|a its c m Ha H IH].
    + done.
    + rewrite append_cons. cbn [app]. by constructor.
    + cbn [app]. by constructor.
    + rewrite append_cons. cbn [app] in *. by apply Matches_star_more.
    + rewrite append_cons. cbn [app] in *. by constructor.
    + cbn [app]. by constructor.
    + rewrite append_cons. cbn [app]. by apply Matches_opt_take.
Qed.

Lemma accepts_literal_nocase l c :
  re.accepts true (re.Lit l) c = true ↔ lower_char c = lower_char l.
Proof. cbn. rewrite Ascii.eqb_eq. split; congruence. Qed.

Lemma accepts_not_sep c :
  re.accepts true (re.Set_ true [("/", "/")]%char) c = negb (Ascii.eqb c "/").
Proof. destruct c as [[] [] [] [] [] [] [] []]; reflexivity. Qed.

Lemma all_chars_not_sep u :
  all_chars (re.accepts true (re.Set_ true [("/", "/")]%char)) u
  = all_chars (λ c, negb (Ascii.eqb c "/")) u.
Proof.
  induction u as [|c u IH]; [done|].
  cbn [all_chars]. by rewrite accepts_not_sep, IH.
Qed.

Lemma Matches_literal t m :
  Matches true (literal_items t) m ↔ same_nocase m t.
Proof.
  unfold same_nocase. revert m. induction t as [|l t IH]; intros m; cbn.
  - split.
    + by inversion 1.
    + destruct m; [constructor|done].
  - split.
    + inversion 1 as [|a its c m' Ha Hm| | | | |]; subst.
      apply accepts_literal_nocase in Ha. apply IH in Hm.
      cbn. by rewrite Ha, Hm.
    + destruct m as [|c m]; [done|]. cbn. intros [= Hc Hm].
      constructor; [by apply accepts_literal_nocase|by apply IH].
Qed.

Lemma Matches_star_all ic a its m :
  Matches ic ((a, re.Star) :: its) m
  ↔ ∃ m1 m2, m = m1 +:+ m2 ∧ all_chars (re.accepts ic a) m1 = true
             ∧ Matches ic its m2.
Proof.
  split.
  - intros H. remember ((a, re.Star) :: its) as its' eqn:Hits.
    induction H as [| |a' its'' m H _|a' its'' c m Ha H IH| | |]; try done.
    + injection Hits as -> ->. by exists "", m.
    + injection Hits as -> ->.
      destruct (IH eq_refl) as (m1 & m2 & -> & Hall & Hm).
      exists (String c m1), m2. split; [done|]. split; [|done].
      cbn. by rewrite Ha, Hall.
  - intros (m1 & m2 & -> & Hall & Hm).
    induction m1 as [|c m1 IH]; [by constructor|].
    cbn in Hall. apply andb_prop in Hall as [Ha Hall].
    rewrite append_cons. apply Matches_star_more; [done|by apply IH].
Qed.

Lemma Matches_user_dir t1 t2 m :
  Matches true (user_dir_items t1 t2) m
  ↔ ∃ a user b, m = a +:+ user +:+ b
                ∧ same_nocase a t1 ∧ is_segment user ∧ same_nocase b t2.
Proof.
  unfold user_dir_items. rewrite Matches_app. split.
  - intros (a & rest & -> & Ha & Hrest). apply Matches_literal in Ha.
    inversion Hrest as [| | | |s its c m' Hc Hstar| |]; subst.
    apply Matches_star_all in Hstar as (u & b & -> & Hu & Hb).
    apply Matches_literal in Hb.
    exists a, (String c u), b. split; [done|]. split; [done|].
    split; [|done]. split; [done|].
    rewrite accepts_not_sep in Hc. rewrite all_chars_not_sep in Hu.
    cbn [all_chars]. by rewrite Hc, Hu.
  - intros (a & user & b & -> & Ha & [Hne Hseg] & Hb).
    exists a, (user +:+ b). split; [done|].
    split; [by apply Matches_literal|].
    destruct user as [|c u]; [done|]. cbn [all_chars] in Hseg.
    apply andb_prop in Hseg as [Hc Hu].
    rewrite append_cons. constructor; [by rewrite accepts_not_sep|].
    apply Matches_star_all. exists u, b. split; [done|].
    split; [by rewrite all_chars_not_sep|by apply Matches_literal].
Qed.

(** ** The platform detector *)

(** [is_wsl] never raises; it opens the kernel-version file only when the
    variable gives no answer, and a failed read counts as "not WSL". *)
Lemma is_wsl_run w :
  is_wsl w =
  if truthy_opt (environ w !! "WSL_DISTRO_NAME") then ([], inr true)
  else
    ([EvOpen "/proc/version"],
     inr match read_text w "/proc/version" with
         | inr text => contains "microsoft" (lower text)
         | inl _ => false
         end).
Proof.
  unfold is_wsl. rewrite bind_run. unfold ask at 1. cbn [app].
  destruct (truthy_opt _); [reflexivity|].
  unfold try_except, lift_result. rewrite bind_run.
  destruct (read_text w "/proc/version"); reflexivity.
Qed.

Lemma is_wsl_spec w :
  ∃ b, outcome is_wsl w = inr b ∧ (b = true ↔ wsl_signal w).
Proof.
  unfold outcome. rewrite is_wsl_run.
  destruct (truthy_opt _) eqn:Hv.
  - exists true. split; [done|]. split; [|done]. intros _. left.
    by apply truthy_opt_spec.
  - eexists. split; [reflexivity|].
    assert (¬ distro_name_given w) as Hno.
    { intros H. apply truthy_opt_spec in H. congruence. }
    unfold wsl_signal, kernel_has_marker.
    destruct (read_text w "/proc/version") as [e|text].
    + split; [done|]. intros [?|(text & ? & _)]; done.
    + rewrite contains_lower_marker. split.
      * intros H. right. by exists text.
      * intros [?|(text' & [= <-] & H)]; done.
Qed.

Lemma check_os_run w :
  check_os w =
  if String.eqb (lower (platform_system w)) "windows" then
    ([], inr {| name := "OS is Linux / WSL / macOS (not Windows-native)";
                ok := false;
                details := "Detected: " +:+ platform_system w;
                fix_ := "Run this script inside WSL/Linux/macOS terminal.";
                required := true |})
  else
    ((is_wsl w).1,
     match (is_wsl w).2 with
     | inr wsl =>
         inr {| name := "OS is Linux / WSL / macOS (not Windows-native)";
                ok := true;
                details := "Detected: " +:+
                  (if wsl : bool then "WSL"
                   else if String.eqb (lower (platform_system w)) "darwin"
                        then "macOS" else "Linux");
                fix_ := "";
                required := true |}
     | inl e => inl e
     end).
Proof.
  unfold check_os, is_windows_native, is_macos. py_unfold.
  destruct (String.eqb (lower (platform_system w)) "windows"); [reflexivity|].
  destruct (is_wsl w) as [t [e|[|]]]; cbn [fst snd]; [reflexivity| |].
  - cbn. by rewrite app_nil_r.
  - cbn. rewrite app_nil_r.
    by destruct (String.eqb (lower (platform_system w)) "darwin").
Qed.

(** C3, as the code has it.  [check_os] always returns a required result.
    It is not ok when the system name is "windows" in any mix of cases,
    whatever the environment and the kernel text say.  Otherwise it is ok
    and detects WSL when [WSL_DISTRO_NAME] holds a non-empty value or the
    kernel-version text has the marker in any mix of cases, else macOS
    when the system name is "darwin", else Linux.  When the kernel-version
    file cannot be read, [is_wsl] still returns: true when the variable
    holds a non-empty value and false otherwise. *)
Theorem check_os_spec (w : World) :
  ∃ r, outcome check_os w = inr r
  ∧ required r = true
  ∧ (lower (platform_system w) = "windows" → ok r = false)
  ∧ (lower (platform_system w) ≠ "windows" →
     ok r = true
     ∧ (wsl_signal w → details r = "Detected: WSL")
     ∧ (¬ wsl_signal w → lower (platform_system w) = "darwin" →
        details r = "Detected: macOS")
     ∧ (¬ wsl_signal w → lower (platform_system w) ≠ "darwin" →
        details r = "Detected: Linux"))
  ∧ (∀ e, read_text w "/proc/version" = inl e →
     ∃ b, outcome is_wsl w = inr b ∧ (b = true ↔ distro_name_given w)).
Proof.
  destruct (is_wsl_spec w) as (wsl & Hwsl & Hsig).
  assert (∀ e, read_text w "/proc/version" = inl e →
     ∃ b, outcome is_wsl w = inr b ∧ (b = true ↔ distro_name_given w)) as Hread.
  { intros e He. exists wsl. split; [done|]. rewrite Hsig.
    unfold wsl_signal, kernel_has_marker. split; [|by left].
    intros [?|(text & Ht & _)]; [done|congruence]. }
  unfold outcome in *. rewrite check_os_run.
  destruct (String.eqb_spec (lower (platform_system w)) "windows") as [Hw|Hw].
  - eexists. split; [reflexivity|]. cbn.
    split; [done|]. split; [done|]. split; [done|exact Hread].
  - cbn [snd]. rewrite Hwsl. eexists. split; [reflexivity|]. cbn.
    split; [done|]. split; [done|].
    split; [|by rewrite <-Hwsl]. intros _.
    split; [done|].
    destruct (String.eqb_spec (lower (platform_system w)) "darwin") as [Hd|Hd];
      destruct wsl; repeat split; try done;
      try (intros Hs; apply Hsig in Hs; done);
      try (intros Hs; exfalso; apply Hs, Hsig; done).
Qed.

Lemma check_os_spec_witness :
  (∃ r, outcome check_os windows_host = inr r ∧ ok r = false)
  ∧ (∃ r, outcome check_os wsl_kernel_host = inr r
          ∧ ok r = true ∧ details r = "Detected: WSL")
  ∧ (∃ b, outcome is_wsl mac_host = inr b ∧ (b = true ↔ distro_name_given mac_host)).
Proof.
  split; [|split].
  - destruct (check_os_spec windows_host) as (r & Hr & _ & Hwin & _).
    exists r. split; [exact Hr|]. apply Hwin. reflexivity.
  - destruct (check_os_spec wsl_kernel_host) as (r & Hr & _ & _ & Hnot & _).
    exists r. split; [exact Hr|].
    destruct Hnot as (Hok & Hw & _); [discriminate|].
    split; [exact Hok|]. apply Hw. right.
    exists "Linux version 5.15.90.1-Microsoft-standard-WSL2 (gcc 11.2.0)".
    split; [reflexivity|].
    exists "Linux version 5.15.90.1-", "Microsoft", "-standard-WSL2 (gcc 11.2.0)".
    split; reflexivity.
  - destruct (check_os_spec mac_host) as (r & _ & _ & _ & _ & Hread).
    apply (Hread FileNotFoundError). reflexivity.
Defined.

(** C3 as stated fails: with [WSL_DISTRO_NAME] set, to the empty string,
    and a kernel text without the marker, the host is detected as Linux. *)
Lemma check_os_empty_name_is_linux :
  environ empty_name_host !! "WSL_DISTRO_NAME" = Some ""
  ∧ outcome check_os empty_name_host =
    inr {| name := "OS is Linux / WSL / macOS (not Windows-native)";
           ok := true;
           details := "Detected: Linux";
           fix_ := "";
           required := true |}.
Proof. split; vm_compute; reflexivity. Qed.

(** C10.  When [WSL_DISTRO_NAME] is set to the empty string, [is_wsl] does
    what it does without the variable, and it returns true exactly when the
    kernel-version file can be read and its text has the marker in any mix
    of cases. *)
Theorem is_wsl_empty_distro_name (w : World) :
  environ w !! "WSL_DISTRO_NAME" = Some "" →
  is_wsl w = is_wsl (with_environ (delete "WSL_DISTRO_NAME" (environ w)) w)
  ∧ ∃ b, outcome is_wsl w = inr b ∧ (b = true ↔ kernel_has_marker w).
Proof.
  intros Hv. split.
  - rewrite !is_wsl_run. cbn [environ read_text with_environ].
    by rewrite Hv, lookup_delete_eq.
  - destruct (is_wsl_spec w) as (b & Hb & Hsig). exists b. split; [done|].
    rewrite Hsig. unfold wsl_signal. split; [|by right].
    intros [(v & Hv' & Hne)|?]; [|done]. congruence.
Qed.

Lemma is_wsl_empty_distro_name_witness :
  is_wsl wsl_kernel_host
  = is_wsl (with_environ (delete "WSL_DISTRO_NAME" (environ wsl_kernel_host))
                         wsl_kernel_host)
  ∧ ∃ b, outcome is_wsl wsl_kernel_host = inr b
         ∧ (b = true ↔ kernel_has_marker wsl_kernel_host).
Proof. apply (is_wsl_empty_distro_name wsl_kernel_host). reflexivity. Defined.

(** ** The filesystem locator *)

Lemma mount_pattern_compiles :
  re.compile "^/mnt/[a-zA-Z]/" =
  Some (re.Pattern true
          [ (re.Lit "/", re.One); (re.Lit "m", re.One); (re.Lit "n", re.One);
            (re.Lit "t", re.One); (re.Lit "/", re.One);
            (re.Set_ false [("a", "z"); ("A", "Z")]%char, re.One);
            (re.Lit "/", re.One) ]).
Proof. reflexivity. Qed.

Lemma accepts_letter_set c :
  re.accepts false (re.Set_ false [("a", "z"); ("A", "Z")]%char) c = is_letter c.
Proof.
  unfold re.accepts, re.range_accepts, is_letter, is_lower, is_upper. cbn.
  by rewrite !orb_false_r.
Qed.

Lemma re_match_mount p w :
  ∃ b, re_match "^/mnt/[a-zA-Z]/" p false w = ([], inr b)
       ∧ (b = true ↔ on_drive_mount p).
Proof.
  unfold re_match. rewrite mount_pattern_compiles. eexists. split; [reflexivity|].
  unfold re.matches, on_drive_mount. cbn [re.items re.match_here]. split.
  - intros H.
    destruct p as [|c0 [|c1 [|c2 [|c3 [|c4 [|c5 [|c6 rest]]]]]]];
      try (cbn in H; rewrite ?andb_false_r in H; discriminate H).
    repeat (apply andb_prop in H as [? H]).
    rewrite accepts_letter_set in *. cbn [re.accepts] in *.
    repeat match goal with
           | E : Ascii.eqb _ _ = true |- _ => apply Ascii.eqb_eq in E; subst
           end.
    by exists c5, rest.
  - intros (c & rest & -> & Hc).
    change ("/mnt/" +:+ String c (String "/" rest))
      with (String "/" (String "m" (String "n" (String "t"
              (String "/" (String c (String "/" rest))))))).
    cbn -[re.accepts]. rewrite accepts_letter_set, Hc. reflexivity.
Qed.

Lemma abspath_run p w : abspath p w = ([], inr (absolute_form w p)).
Proof. unfold abspath, absolute_form. by destruct (isabs p). Qed.

Lemma check_project_path_run p w :
  ∃ b, (b = true ↔ on_drive_mount (absolute_form w p))
  ∧ check_project_path p w =
    ([], inr {| name := "Project directory is on Linux filesystem (not /mnt/c)";
                ok := negb b;
                details := absolute_form w p;
                fix_ := "Move project into Linux FS (e.g. /home/<user>/project).";
                required := true |}).
Proof.
  destruct (re_match_mount (absolute_form w p) w) as (b & Hm & Hb).
  exists b. split; [done|].
  unfold check_project_path, project_is_on_linux_fs.
  rewrite !bind_run, abspath_run. cbn [app]. rewrite !bind_run, Hm.
  cbn. rewrite !bind_run, abspath_run. reflexivity.
Qed.

Lemma check_project_path_outcome p w :
  ∃ r, outcome (check_project_path p) w = inr r
  ∧ required r = true
  ∧ details r = absolute_form w p
  ∧ (ok r = false ↔ on_drive_mount (absolute_form w p))
  ∧ (ok r = true ↔ ¬ on_drive_mount (absolute_form w p)).
Proof.
  destruct (check_project_path_run p w) as (b & Hb & Hrun).
  unfold outcome. rewrite Hrun. cbn [snd].
  eexists. split; [reflexivity|]. cbn [ok details required].
  split; [done|]. split; [done|]. split.
  - rewrite negb_false_iff. exact Hb.
  - rewrite <-Hb, negb_true_iff, not_true_iff_false. done.
Qed.

Lemma absolute_form_normal p w :
  isabs p = true → normpath p = p → absolute_form w p = p.
Proof. intros Habs Hnorm. unfold absolute_form. by rewrite Habs. Qed.

(** C2, as the code has it.  For every path, absolute or not,
    [check_project_path] returns a required result whose details are the
    normalised absolute form of the path, and which is ok exactly when that
    form does not begin with [/mnt/], one letter of either case and a
    slash.  For an absolute path that is its own normal form this is the
    path itself. *)
Theorem check_project_path_spec (p : string) (w : World) :
  ∃ r, outcome (check_project_path p) w = inr r
  ∧ required r = true
  ∧ details r = absolute_form w p
  ∧ (ok r = false ↔ on_drive_mount (absolute_form w p))
  ∧ (ok r = true ↔ ¬ on_drive_mount (absolute_form w p))
  ∧ (isabs p = true → normpath p = p →
     details r = p
     ∧ (ok r = false ↔ on_drive_mount p)
     ∧ (ok r = true ↔ ¬ on_drive_mount p)).
Proof.
  destruct (check_project_path_outcome p w) as (r & Hr & Hreq & Hd & Hf & Ht).
  exists r. do 5 (split; [done|]).
  intros Habs Hnorm.
  rewrite (absolute_form_normal p w Habs Hnorm) in *. done.
Qed.

Lemma check_project_path_spec_witness :
  (∃ r, outcome (check_project_path "/mnt/c/Users/dev/proj") linux_host = inr r
        ∧ details r = "/mnt/c/Users/dev/proj" ∧ ok r = false)
  ∧ (∃ r, outcome (check_project_path "proj") linux_host = inr r
          ∧ details r = "/home/dev/proj" ∧ required r = true).
Proof.
  split.
  - destruct (check_project_path_spec "/mnt/c/Users/dev/proj" linux_host)
      as (r & Hr & _ & _ & _ & _ & Hnorm).
    destruct Hnorm as (Hd & Hf & _); [reflexivity|reflexivity|].
    exists r. split; [exact Hr|]. split; [exact Hd|].
    apply Hf. exists "c"%char, "Users/dev/proj". split; reflexivity.
  - destruct (check_project_path_spec "proj" linux_host)
      as (r & Hr & Hreq & Hd & _).
    exists r. split; [exact Hr|]. split; [exact Hd|exact Hreq].
Defined.

(** C2 as stated fails in both directions.  An absolute path that begins
    with [/mnt/c/] and leaves the mount through [..] is ok, and its details
    are not the path; an absolute path with a doubled slash does not begin
    with the mount pattern and is not ok. *)
Lemma check_project_path_not_textual :
  (isabs "/mnt/c/../../home/dev/proj" = true
   ∧ outcome (re_match "^/mnt/[a-zA-Z]/" "/mnt/c/../../home/dev/proj" false)
       linux_host = inr true
   ∧ outcome (check_project_path "/mnt/c/../../home/dev/proj") linux_host =
     inr {| name := "Project directory is on Linux filesystem (not /mnt/c)";
            ok := true;
            details := "/home/dev/proj";
            fix_ := "Move project into Linux FS (e.g. /home/<user>/project).";
            required := true |})
  ∧ (isabs "/mnt//c/proj" = true
     ∧ outcome (re_match "^/mnt/[a-zA-Z]/" "/mnt//c/proj" false) linux_host
       = inr false
     ∧ outcome (check_project_path "/mnt//c/proj") linux_host =
       inr {| name := "Project directory is on Linux filesystem (not /mnt/c)";
              ok := false;
              details := "/mnt/c/proj";
              fix_ := "Move project into Linux FS (e.g. /home/<user>/project).";
              required := true |}).
Proof.
  repeat split; reflexivity.
Qed.

(** C9.  A path whose absolute form is [/mnt/] followed by a single
    character and nothing else (as [/mnt/c]), or by two characters the
    second of which is not a slash (as [/mnt/cc/x]), is ok. *)
Theorem check_project_path_mount_root (p : string) (w : World) :
  (∃ c, absolute_form w p = "/mnt/" +:+ String c "")
  ∨ (∃ c d rest, absolute_form w p = "/mnt/" +:+ String c (String d rest)
                 ∧ d ≠ "/"%char) →
  ∃ r, outcome (check_project_path p) w = inr r ∧ ok r = true.
Proof.
  intros Hform.
  destruct (check_project_path_outcome p w) as (r & Hr & _ & _ & _ & Hok).
  exists r. split; [done|]. apply Hok.
  intros (c' & rest' & Heq & _).
  destruct Hform as [(c & Hc)|(c & d & rest & Hc & Hd)];
    rewrite Hc in Heq; cbv [String.append] in Heq; congruence.
Qed.

Lemma check_project_path_mount_root_witness :
  (∃ r, outcome (check_project_path "/mnt/c") linux_host = inr r ∧ ok r = true)
  ∧ (∃ r, outcome (check_project_path "/mnt/cc/x") linux_host = inr r ∧ ok r = true)
  ∧ (∃ r, outcome (check_project_path "../../mnt/d/") linux_host = inr r
          ∧ ok r = true).
Proof.
  split; [|split].
  - apply (check_project_path_mount_root "/mnt/c" linux_host).
    left. exists "c"%char. reflexivity.
  - apply (check_project_path_mount_root "/mnt/cc/x" linux_host).
    right. exists "c"%char, "c"%char, "/x". split; [reflexivity|discriminate].
  - apply (check_project_path_mount_root "../../mnt/d/" linux_host).
    left. exists "d"%char. reflexivity.
Defined.

(** ** The path hygiene scanner *)

Lemma re_search_run p text ic w :
  re_search p text ic w =
  match re.compile p with
  | Some r => ([], inr (re.searches r ic text))
  | None => ([], inl re_error)
  end.
Proof. unfold re_search. by destruct (re.compile p). Qed.

Lemma patterns_compile : Forall (λ p, is_Some (re.compile p)) patterns.
Proof. repeat constructor; by eexists. Qed.

Lemma found_spec p text :
  is_Some (re.compile p) →
  found p text ↔
  match re.compile p with
  | Some r => re.searches r true text
  | None => false
  end = true.
Proof.
  intros [r Hr]. unfold found, outcome. rewrite Hr. split.
  - intros H. specialize (H linux_host). rewrite re_search_run, Hr in H.
    by injection H.
  - intros H w. by rewrite re_search_run, Hr, H.
Qed.

Lemma comprehension_if_search (ps : list string) text w :
  Forall (λ p, is_Some (re.compile p)) ps →
  comprehension_if ps (λ p, re_search p text true) w =
  ([], inr (List.filter
              (λ p, match re.compile p with
                    | Some r => re.searches r true text
                    | None => false
                    end) ps)).
Proof.
  induction 1 as [|p ps [r Hr] _ IH]; [done|].
  cbn [comprehension_if List.filter].
  rewrite bind_run, re_search_run, Hr. cbn [app]. rewrite bind_run, IH.
  by destruct (re.searches r true text).
Qed.

Lemma path_contains_windows_bins_run w :
  path_contains_windows_bins w = ([], inr (found_patterns (search_path w))).
Proof.
  unfold path_contains_windows_bins. rewrite bind_run. unfold ask at 1.
  cbn [app]. by rewrite (comprehension_if_search _ _ _ patterns_compile).
Qed.

Lemma check_windows_path_hygiene_run strict w :
  check_windows_path_hygiene strict w =
  ([], inr {| name := "WSL PATH does not include Windows Node/Python locations";
              ok := bool_decide (List.length (found_patterns (search_path w)) = 0%nat);
              details :=
                if bool_decide (List.length (found_patterns (search_path w)) = 0%nat)
                then "clean"
                else "matches: " +:+ repr_list (found_patterns (search_path w));
              fix_ := "Remove Windows runtime paths from WSL PATH (~/.bashrc, ~/.zshrc).";
              required := strict |}).
Proof.
  unfold check_windows_path_hygiene.
  by rewrite bind_run, path_contains_windows_bins_run.
Qed.

Lemma elem_of_found_patterns p text :
  p ∈ found_patterns text ↔ p ∈ patterns ∧ found p text.
Proof.
  unfold found_patterns. rewrite list_elem_of_In, filter_In, <-list_elem_of_In.
  split; intros [Hin H]; (split; [done|]);
    assert (is_Some (re.compile p)) as Hc
      by (by apply (list.Forall_forall (λ p, is_Some (re.compile p)) patterns);
          [apply patterns_compile|]).
  - by apply (found_spec p text Hc).
  - by apply (found_spec p text Hc).
Qed.

(** A pattern without [^] is found in a text exactly when some part of the
    text is matched by its items, letters compared without case. *)
Lemma found_meaning p r text :
  re.compile p = Some r → re.anchored r = false →
  found p text
  ↔ ∃ pre m post, text = pre +:+ m +:+ post ∧ Matches true (re.items r) m.
Proof.
  intros Hc Ha. rewrite found_spec by by eexists.
  rewrite Hc. unfold re.searches. rewrite Ha. apply match_anywhere_spec.
Qed.

Lemma found_literal p t text :
  re.compile p = Some (re.Pattern false (literal_items t)) →
  found p text ↔ has_nocase t text.
Proof.
  intros Hc. rewrite (found_meaning _ _ _ Hc eq_refl). cbn [re.items].
  unfold has_nocase. split.
  - intros (pre & m & post & -> & Hm). apply Matches_literal in Hm.
    by exists pre, m, post.
  - intros (pre & m & post & -> & Hm). apply Matches_literal in Hm.
    by exists pre, m, post.
Qed.

Lemma found_user_dir p t1 t2 text :
  re.compile p = Some (re.Pattern false (user_dir_items t1 t2)) →
  found p text ↔ has_user_dir t1 t2 text.
Proof.
  intros Hc. rewrite (found_meaning _ _ _ Hc eq_refl). cbn [re.items].
  unfold has_user_dir. split.
  - intros (pre & m & post & -> & Hm).
    apply Matches_user_dir in Hm as (a & user & b & -> & H).
    by exists pre, a, user, b, post.
  - intros (pre & a & user & b & post & -> & H).
    exists pre, (a +:+ user +:+ b), post. split; [done|].
    apply Matches_user_dir. by exists a, user, b.
Qed.




(** ** The runtime version check *)

Lemma tuple_ge_3_10 (mj mn : Z) :
  tuple_ge [mj; mn] [3; 10] = true ↔ 3 < mj ∨ (mj = 3 ∧ 10 ≤ mn).
Proof.
  cbn. destruct (Z.eqb_spec mj 3) as [->|Hne].
  - destruct (Z.eqb_spec mn 10) as [->|Hmn]; [lia|]. rewrite Z.ltb_lt. lia.
  - rewrite Z.ltb_lt. lia.
Qed.

Lemma check_python_version_run w :
  check_python_version w =
  match split_ws (sys_version w) with
  | v0 :: _ =>
      ([], inr {| name := "Python version >= 3.10";
                  ok := tuple_ge [major (sys_version_info w);
                                  minor (sys_version_info w)] [3; 10];
                  details := v0 +:+ " (" +:+ sys_executable w +:+ ")";
                  fix_ := "Install Python 3.10+ and activate the correct uv venv.";
                  required := true |})
  | [] => ([], inl IndexError)
  end.
Proof.
  unfold check_python_version, index0. py_unfold.
  by destruct (split_ws (sys_version w)).
Qed.

(** C5.  For an interpreter whose version string has a first word, the
    version check returns a required result that is ok exactly when
    [(major, minor)] is at least [(3, 10)], and not ok exactly when it is
    below. *)
Theorem check_python_version_spec (w : World) :
  split_ws (sys_version w) ≠ [] →
  ∃ r, outcome check_python_version w = inr r
  ∧ required r = true
  ∧ (ok r = true ↔ at_least_3_10 (sys_version_info w))
  ∧ (ok r = false ↔ ¬ at_least_3_10 (sys_version_info w)).
Proof.
  intros Hv. unfold outcome. rewrite check_python_version_run.
  destruct (split_ws (sys_version w)) as [|v0 vs]; [done|].
  eexists. split; [reflexivity|]. cbn [snd ok required].
  split; [done|]. unfold at_least_3_10.
  rewrite <-tuple_ge_3_10, not_true_iff_false. done.
Qed.

Lemma check_python_version_spec_witness :
  (∃ r, outcome check_python_version
          (with_version {| major := 3; minor := 9; micro := 18 |} linux_host) = inr r
        ∧ ok r = false)
  ∧ (∃ r, outcome check_python_version
            (with_version {| major := 3; minor := 10; micro := 0 |} linux_host) = inr r
          ∧ ok r = true)
  ∧ (∃ r, outcome check_python_version
            (with_version {| major := 3; minor := 13; micro := 1 |} linux_host) = inr r
          ∧ ok r = true ∧ required r = true).
Proof.
  split; [|split].
  - destruct (check_python_version_spec
                (with_version {| major := 3; minor := 9; micro := 18 |} linux_host))
      as (r & Hr & _ & _ & Hlow); [discriminate|].
    exists r. split; [exact Hr|]. apply Hlow. unfold at_least_3_10. cbn. lia.
  - destruct (check_python_version_spec
                (with_version {| major := 3; minor := 10; micro := 0 |} linux_host))
      as (r & Hr & _ & Hge & _); [discriminate|].
    exists r. split; [exact Hr|]. apply Hge. unfold at_least_3_10. cbn. lia.
  - destruct (check_python_version_spec
                (with_version {| major := 3; minor := 13; micro := 1 |} linux_host))
      as (r & Hr & Hreq & Hge & _); [discriminate|].
    exists r. split; [exact Hr|]. split; [|exact Hreq].
    apply Hge. unfold at_least_3_10. cbn. lia.
Defined.

(** ** The binary resolver *)

Lemma check_bin_run nm req label w :
  check_bin nm req label w =
  ([EvWhich nm],
   inr {| name := label +:+ " is installed";
          ok := bool_decide (shutil_which w nm ≠ None);
          details := or_else (shutil_which w nm) "not found";
          fix_ := "Install `" +:+ label
                  +:+ "` in WSL/Linux/macOS and ensure it is on PATH.";
          required := req |}).
Proof. reflexivity. Qed.

(** C6.  [check_bin] returns a result with the [required] flag it was
    given.  When the lookup finds nothing the result is not ok and its
    details are "not found"; when the lookup finds a path (a non-empty
    string, as every absolute path is) the result is ok and its details
    are that path.  The only effect of the check is the lookup: it starts
    no subprocess. *)
Theorem check_bin_spec (nm : string) (req : bool) (label : string) (w : World) :
  ∃ r, outcome (check_bin nm req label) w = inr r
  ∧ required r = req
  ∧ (shutil_which w nm = None → ok r = false ∧ details r = "not found")
  ∧ (∀ p, shutil_which w nm = Some p → p ≠ "" → ok r = true ∧ details r = p)
  ∧ trace (check_bin nm req label) w = [EvWhich nm]
  ∧ existsb spawns (trace (check_bin nm req label) w) = false.
Proof.
  unfold outcome, trace. rewrite check_bin_run. cbn [fst snd].
  eexists. split; [reflexivity|]. cbn [ok details required].
  split; [done|]. split; [|split; [|done]].
  - intros ->. done.
  - intros p -> Hp. split; [done|]. by destruct p.
Qed.

Lemma check_bin_spec_witness :
  (∃ r, outcome (check_bin "gh" true "GitHub CLI (gh)") linux_host = inr r
        ∧ ok r = false ∧ details r = "not found")
  ∧ (∃ r, outcome (check_bin "uv" true "uv") linux_host = inr r
          ∧ ok r = true ∧ details r = "/home/dev/.local/bin/uv").
Proof.
  split.
  - destruct (check_bin_spec "gh" true "GitHub CLI (gh)" linux_host)
      as (r & Hr & _ & Hnone & _).
    exists r. split; [exact Hr|]. apply Hnone. reflexivity.
  - destruct (check_bin_spec "uv" true "uv" linux_host)
      as (r & Hr & _ & _ & Hsome & _).
    exists r. split; [exact Hr|].
    apply (Hsome "/home/dev/.local/bin/uv"); [reflexivity|discriminate].
Defined.

(** ** The subprocess utility *)

Lemma run_run cmd timeout w :
  run cmd timeout w =
  ([EvSpawn cmd (default 5 timeout)],
   match subprocess_run w cmd (default 5 timeout) with
   | inr p => inr (returncode p, strip (stdout p), strip (stderr p))
   | inl FileNotFoundError =>
       match cmd with
       | c0 :: _ => inr (127, "", "not found: " +:+ c0)
       | [] => inl IndexError
       end
   | inl TimeoutExpired => inr (124, "", "timeout")
   | inl e => inl e
   end).
Proof.
  unfold run, index0. py_unfold.
  destruct (subprocess_run w cmd (default 5 timeout)) as [[]|p];
    try reflexivity.
  by destruct cmd.
Qed.

(** C7.  [run] starts the command once, with the time limit it was given
    and 5 when it was given none.  When the executable is missing it
    returns 127, an empty output and the message "not found: " followed by
    the executable; when the time limit is exceeded it returns 124, an
    empty output and "timeout".  In both cases it returns and does not
    raise. *)
Theorem run_spec (cmd : list string) (w : World) :
  trace (run cmd None) w = [EvSpawn cmd 5]
  ∧ (∀ t, trace (run cmd (Some t)) w = [EvSpawn cmd t])
  ∧ (∀ timeout exe args,
     cmd = exe :: args →
     subprocess_run w cmd (default 5 timeout) = inl FileNotFoundError →
     outcome (run cmd timeout) w = inr (127, "", "not found: " +:+ exe))
  ∧ (∀ timeout,
     subprocess_run w cmd (default 5 timeout) = inl TimeoutExpired →
     outcome (run cmd timeout) w = inr (124, "", "timeout")).
Proof.
  unfold trace, outcome. split; [by rewrite run_run|].
  split; [intros t; by rewrite run_run|]. split.
  - intros timeout exe args -> H. rewrite run_run. cbn [snd]. by rewrite H.
  - intros timeout H. rewrite run_run. cbn [snd]. by rewrite H.
Qed.

Lemma run_spec_witness :
  trace (run ["codex"; "--version"] None) linux_host
    = [EvSpawn ["codex"; "--version"] 5]
  ∧ outcome (run ["codex"; "--version"] None) linux_host
    = inr (127, "", "not found: codex")
  ∧ outcome (run ["sleep"; "60"] None) linux_host = inr (124, "", "timeout").
Proof.
  split; [|split].
  - apply (run_spec ["codex"; "--version"] linux_host).
  - apply (run_spec ["codex"; "--version"] linux_host) with (args := ["--version"]);
      reflexivity.
  - apply (run_spec ["sleep"; "60"] linux_host). reflexivity.
Defined.

(** ** The aggregator *)

Lemma print_entry_run r w :
  print_entry r w = (EvPrint <$> entry_lines r, inr ()).
Proof.
  unfold print_entry, entry_lines.
  destruct (ok r), (truthy (details r)); reflexivity.
Qed.

Lemma for_each_print_entry rs w :
  for_each rs print_entry w = (EvPrint <$> (rs ≫= entry_lines), inr ()).
Proof.
  induction rs as [|r rs IH]; [done|].
  cbn [for_each]. rewrite (bind_run_inr _ _ _ _ _ (print_entry_run r w)).
  rewrite IH. cbn [fst snd]. by rewrite bind_cons, fmap_app.
Qed.

Lemma print_results_run rs w :
  print_results rs w =
  (EvPrint <$> ((rs ≫= entry_lines) ++ [summary rs]), inr (exit_status rs)).
Proof.
  unfold print_results, summary, exit_status.
  rewrite (bind_run_inr _ _ _ _ _ (for_each_print_entry rs w)).
  rewrite fmap_app.
  destruct (nonempty (failed_required rs)); [reflexivity|].
  destruct (nonempty (failed_optional rs)); reflexivity.
Qed.

Lemma nonempty_filter {A} (f : A → bool) (l : list A) :
  nonempty (List.filter f l) = true ↔ ∃ x, x ∈ l ∧ f x = true.
Proof.
  induction l as [|a l IH]; cbn.
  - split; [done|]. intros (x & Hx & _). by apply elem_of_nil in Hx.
  - destruct (f a) eqn:Ha; cbn.
    + split; [|done]. intros _. exists a. split; [left|done].
    + rewrite IH. split.
      * intros (x & Hx & Hf). exists x. split; [by right|done].
      * intros (x & Hx & Hf). apply elem_of_cons in Hx as [->|Hx]; [congruence|].
        by exists x.
Qed.

Lemma has_failed_required rs :
  nonempty (failed_required rs) = true
  ↔ ∃ r, r ∈ rs ∧ required r = true ∧ ok r = false.
Proof.
  unfold failed_required. rewrite nonempty_filter.
  split; intros (r & Hr & H); exists r; (split; [done|]).
  - apply andb_prop in H as [-> H]. by apply negb_true_iff in H.
  - destruct H as [-> ->]. done.
Qed.

Lemma has_failed_optional rs :
  nonempty (failed_optional rs) = true
  ↔ ∃ r, r ∈ rs ∧ required r = false ∧ ok r = false.
Proof.
  unfold failed_optional. rewrite nonempty_filter.
  split; intros (r & Hr & H); exists r; (split; [done|]).
  - apply andb_prop in H as [H1 H2].
    apply negb_true_iff in H1, H2. done.
  - destruct H as [-> ->]. done.
Qed.

Lemma last_report rs w :
  list.last (printed (trace (print_results rs) w)) = Some (summary rs).
Proof.
  unfold trace. rewrite print_results_run. cbn [fst].
  rewrite printed_prints. apply last_snoc.
Qed.

(** C1.  The aggregator returns 1 when some result is required and not ok.
    Otherwise it returns 0; its report then ends with the "PASSED with
    warnings" line (with the number of optional failures) when some result
    is optional and not ok, and with the plain "PASSED" line when every
    result is ok. *)
Theorem print_results_exit_status (results : list CheckResult) (w : World) :
  let code := outcome (print_results results) w in
  let report := printed (trace (print_results results) w) in
  ((∃ r, r ∈ results ∧ required r = true ∧ ok r = false) → code = inr 1)
  ∧ ((∀ r, r ∈ results → required r = true → ok r = true) →
     code = inr 0
     ∧ ((∃ r, r ∈ results ∧ required r = false ∧ ok r = false) →
        list.last report =
          Some ("⚠️ Environment check PASSED with warnings ("
                +:+ pretty (List.length (failed_optional results)) +:+ ")"))
     ∧ ((∀ r, r ∈ results → ok r = true) →
        list.last report = Some "✅ Environment check PASSED")).
Proof.
  intros code report. subst code report. rewrite last_report.
  unfold outcome. rewrite print_results_run. cbn [snd].
  unfold exit_status, summary. split.
  - intros H. apply has_failed_required in H. by rewrite H.
  - intros Hreq.
    assert (nonempty (failed_required results) = false) as ->.
    { apply not_true_is_false. rewrite has_failed_required.
      intros (r & Hr & H1 & H2). specialize (Hreq r Hr H1). congruence. }
    split; [done|]. split.
    + intros H. apply has_failed_optional in H. by rewrite H.
    + intros Hok.
      assert (nonempty (failed_optional results) = false) as ->; [|done].
      apply not_true_is_false. rewrite has_failed_optional.
      intros (r & Hr & _ & H2). specialize (Hok r Hr). congruence.
Qed.

Lemma print_results_exit_status_witness :
  outcome (print_results [passed_uv; failed_codex; failed_gh]) linux_host = inr 1
  ∧ outcome (print_results [passed_uv; failed_codex]) linux_host = inr 0
  ∧ list.last (printed (trace (print_results [passed_uv; failed_codex]) linux_host))
    = Some "⚠️ Environment check PASSED with warnings (1)"
  ∧ list.last (printed (trace (print_results [passed_uv]) linux_host))
    = Some "✅ Environment check PASSED".
Proof.
  split; [|split; [|split]].
  - apply (print_results_exit_status [passed_uv; failed_codex; failed_gh] linux_host).
    exists failed_gh. split; [|done]. do 2 right. left.
  - apply (print_results_exit_status [passed_uv; failed_codex] linux_host).
    intros r Hr. apply elem_of_cons in Hr as [->|Hr]; [done|].
    apply elem_of_cons in Hr as [->|Hr]; [discriminate|].
    by apply elem_of_nil in Hr.
  - apply (print_results_exit_status [passed_uv; failed_codex] linux_host).
    + intros r Hr. apply elem_of_cons in Hr as [->|Hr]; [done|].
      apply elem_of_cons in Hr as [->|Hr]; [discriminate|].
      by apply elem_of_nil in Hr.
    + exists failed_codex. split; [|done]. right. left.
  - apply (print_results_exit_status [passed_uv] linux_host).
    + intros r Hr. apply elem_of_cons in Hr as [->|Hr]; [done|].
      by apply elem_of_nil in Hr.
    + intros r Hr. apply elem_of_cons in Hr as [->|Hr]; [done|].
      by apply elem_of_nil in Hr.
Defined.

Lemma exit_status_of_pairs rs :
  exit_status rs = if bool_decide ((false, true) ∈ status_pair <$> rs) then 1 else 0.
Proof.
  unfold exit_status.
  destruct (nonempty (failed_required rs)) eqn:H.
  - apply has_failed_required in H as (r & Hr & H1 & H2).
    rewrite bool_decide_eq_true_2; [done|].
    apply list_elem_of_fmap. exists r. split; [|done].
    unfold status_pair. by rewrite H1, H2.
  - rewrite bool_decide_eq_false_2; [done|].
    intros Hin. apply list_elem_of_fmap in Hin as (r & Heq & Hr).
    apply not_true_iff_false in H. apply H, has_failed_required.
    exists r. unfold status_pair in Heq. by simplify_eq.
Qed.

Lemma exit_status_multiset rs1 rs2 :
  list_to_set_disj (status_pair <$> rs1)
    =@{gmultiset (bool * bool)} list_to_set_disj (status_pair <$> rs2) →
  exit_status rs1 = exit_status rs2.
Proof.
  intros Heq. rewrite !exit_status_of_pairs.
  apply (f_equal (λ b : bool, if b then 1 else 0)).
  apply bool_decide_ext.
  rewrite <-!(elem_of_list_to_set_disj (A:=bool * bool)). by rewrite Heq.
Qed.

Lemma status_pairs_same_flags rs1 rs2 :
  Forall2 (λ r1 r2, ok r1 = ok r2 ∧ required r1 = required r2) rs1 rs2 →
  status_pair <$> rs1 = status_pair <$> rs2.
Proof.
  induction 1 as [|r1 r2 rs1 rs2 [Hok Hreq] _ IH]; [done|].
  rewrite !fmap_cons, IH. unfold status_pair. by rewrite Hok, Hreq.
Qed.

(** C8.  Two result lists with the same multiset of [(ok, required)] pairs
    give the same exit status, in any two worlds; so the exit status does
    not change when the list is permuted, nor when names, details and
    fixes are changed; and the report and exit status of a list are the same
    in every world. *)
Theorem print_results_pure :
  (∀ rs1 rs2 w1 w2,
     list_to_set_disj (status_pair <$> rs1)
       =@{gmultiset (bool * bool)} list_to_set_disj (status_pair <$> rs2) →
     outcome (print_results rs1) w1 = outcome (print_results rs2) w2)
  ∧ (∀ rs1 rs2 w1 w2,
       rs1 ≡ₚ rs2 →
       outcome (print_results rs1) w1 = outcome (print_results rs2) w2)
  ∧ (∀ rs1 rs2 w1 w2,
       Forall2 (λ r1 r2, ok r1 = ok r2 ∧ required r1 = required r2) rs1 rs2 →
       outcome (print_results rs1) w1 = outcome (print_results rs2) w2)
  ∧ (∀ rs w1 w2, print_results rs w1 = print_results rs w2).
Proof.
  assert (∀ rs1 rs2 w1 w2,
     list_to_set_disj (status_pair <$> rs1)
       =@{gmultiset (bool * bool)} list_to_set_disj (status_pair <$> rs2) →
     outcome (print_results rs1) w1 = outcome (print_results rs2) w2) as Hms.
  { intros rs1 rs2 w1 w2 Heq. unfold outcome. rewrite !print_results_run.
    cbn [snd]. f_equal. by apply exit_status_multiset. }
  split; [exact Hms|]. split; [|split].
  - intros rs1 rs2 w1 w2 Hp. apply Hms. by rewrite Hp.
  - intros rs1 rs2 w1 w2 Hf. apply Hms.
    by rewrite (status_pairs_same_flags _ _ Hf).
  - intros rs w1 w2. by rewrite !print_results_run.
Qed.

Lemma print_results_pure_witness :
  outcome (print_results [failed_gh; passed_uv; failed_codex]) linux_host
  = outcome (print_results [failed_codex; failed_gh; passed_uv]) linux_host.
Proof.
  apply (proj1 (proj2 print_results_pure)
           [failed_gh; passed_uv; failed_codex]
           [failed_codex; failed_gh; passed_uv] linux_host linux_host).
  change [failed_gh; passed_uv; failed_codex]
    with ([failed_gh; passed_uv] ++ [failed_codex]).
  symmetry. apply (Permutation_cons_append [failed_gh; passed_uv] failed_codex).
Defined.

(** ** The end-to-end scenario of the specification

    Project under [/mnt/c], a Windows entry in [PATH], no [--strict], a
    Linux host with the required tools: the OS check passes, the project
    check fails and is required, the hygiene check fails and is optional,
    and the exit status is 1 for the single required failure. *)
Example end_to_end_scenario :
  outcome (main (Some "/mnt/c/Users/dev/proj") false) scenario_host = inr 1
  ∧ list.last (printed (trace (main (Some "/mnt/c/Users/dev/proj") false)
                           scenario_host))
    = Some "❌ Environment check FAILED (1 required issue(s))"
  ∧ existsb spawns (trace (main (Some "/mnt/c/Users/dev/proj") false)
                      scenario_host) = false.
Proof. repeat split; vm_compute; reflexivity. Qed.

(** ** More of the script: the Node.js version-manager check *)

Lemma check_node_nvm_run strict w :
  check_node_nvm strict w =
  ([EvWhich "node"],
   inr {| name := "Node.js is installed via nvm";
          ok := match shutil_which w "node" with
                | Some n => truthy n && contains ".nvm" n
                | None => false
                end;
          details := or_else (shutil_which w "node") "node not found";
          fix_ := "Install Node.js via nvm and run `nvm use`.";
          required := strict |}).
Proof. reflexivity. Qed.

(** X1.  [check_node_nvm] looks up [node] once and starts no subprocess.
    Its result carries the [strict] flag as [required]; it is ok exactly
    when [node] resolves to a path that has [.nvm] somewhere in it; its
    details are "node not found" when nothing is resolved and the resolved
    path otherwise, also when that path is not under [.nvm]. *)
Theorem check_node_nvm_spec (strict : bool) (w : World) :
  ∃ r, outcome (check_node_nvm strict) w = inr r
  ∧ trace (check_node_nvm strict) w = [EvWhich "node"]
  ∧ required r = strict
  ∧ (ok r = true
     ↔ ∃ p, shutil_which w "node" = Some p ∧ has_substring ".nvm" p)
  ∧ (shutil_which w "node" = None → details r = "node not found")
  ∧ (∀ p, shutil_which w "node" = Some p → p ≠ "" → details r = p).
Proof.
  unfold outcome, trace. rewrite check_node_nvm_run. cbn [fst snd].
  eexists. split; [reflexivity|]. cbn [ok details required].
  split; [done|]. split; [done|]. split; [|split].
  - destruct (shutil_which w "node") as [p|].
    + rewrite andb_true_iff, contains_spec. unfold has_substring. split.
      * intros [_ H]. by exists p.
      * intros (p' & [= <-] & pre & post & ->). split; [|by exists pre, post].
        by destruct pre.
    + split; [done|]. by intros (p & ? & _).
  - by intros ->.
  - intros p -> Hp. by destruct p.
Qed.

Lemma check_node_nvm_spec_witness :
  (∃ r, outcome (check_node_nvm true) linux_host = inr r
        ∧ required r = true ∧ ok r = true
        ∧ details r = "/home/dev/.nvm/versions/node/v20/bin/node")
  ∧ (∃ r, outcome (check_node_nvm false) windows_host = inr r
          ∧ details r = "node not found").
Proof.
  split.
  - destruct (check_node_nvm_spec true linux_host)
      as (r & Hr & _ & Hreq & Hok & _ & Hd).
    exists r. split; [exact Hr|]. split; [exact Hreq|]. split.
    + apply Hok. exists "/home/dev/.nvm/versions/node/v20/bin/node".
      split; [reflexivity|].
      exists "/home/dev/", "/versions/node/v20/bin/node". reflexivity.
    + apply Hd; [reflexivity|discriminate].
  - destruct (check_node_nvm_spec false windows_host)
      as (r & Hr & _ & _ & _ & Hnone & _).
    exists r. split; [exact Hr|]. apply Hnone. reflexivity.
Defined.

(** ** More of the script: what [run] returns and what it lets through *)







(** X3.  [run] catches two exceptions only.  Any other exception of
    [subprocess.run], such as a permission error, leaves [run] unchanged,
    after the one attempt to start the command. *)
Theorem run_propagates (cmd : list string) (timeout : option Z) (w : World)
    (e : exn) :
  e ≠ FileNotFoundError → e ≠ TimeoutExpired →
  subprocess_run w cmd (default 5 timeout) = inl e →
  outcome (run cmd timeout) w = inl e
  ∧ trace (run cmd timeout) w = [EvSpawn cmd (default 5 timeout)].
Proof.
  intros H1 H2 He. unfold outcome, trace. rewrite run_run, He. cbn [fst snd].
  split; [|done]. by destruct e.
Qed.

Lemma run_propagates_witness :
  outcome (run ["locked"] None) command_host = inl PermissionError
  ∧ trace (run ["locked"] None) command_host = [EvSpawn ["locked"] 5].
Proof.
  apply (run_propagates ["locked"] None command_host PermissionError);
    [discriminate|discriminate|reflexivity].
Defined.

(** ** More of the script: what the platform probes touch *)

Lemma string_eqb_lower s t c :
  lower t = c → String.eqb (lower s) c = true ↔ same_nocase s t.
Proof. intros <-. apply String.eqb_eq. Qed.

(** X4.  [is_wsl] opens the kernel-version file only when
    [WSL_DISTRO_NAME] gives no answer, once, and nothing else; [check_os]
    touches nothing on a Windows host and otherwise does what [is_wsl]
    does.  Neither looks up or starts a program, and neither raises. *)
Theorem platform_probe_effects (w : World) :
  (distro_name_given w → is_wsl w = ([], inr true))
  ∧ (¬ distro_name_given w → trace is_wsl w = [EvOpen "/proc/version"])
  ∧ (same_nocase (platform_system w) "Windows" → trace check_os w = [])
  ∧ (¬ same_nocase (platform_system w) "Windows" →
     trace check_os w = trace is_wsl w)
  ∧ (∃ b r, outcome is_wsl w = inr b ∧ outcome check_os w = inr r).
Proof.
  assert (truthy_opt (environ w !! "WSL_DISTRO_NAME") = true
          ↔ distro_name_given w) as Hv by apply truthy_opt_spec.
  split; [|split; [|split; [|split]]].
  - intros H. rewrite is_wsl_run. apply Hv in H. by rewrite H.
  - intros H. unfold trace. rewrite is_wsl_run.
    destruct (truthy_opt _); [|done]. exfalso. by apply H, Hv.
  - intros H. unfold trace. rewrite check_os_run.
    apply (string_eqb_lower _ "Windows" "windows" eq_refl) in H. by rewrite H.
  - intros H. unfold trace. rewrite check_os_run.
    destruct (String.eqb (lower (platform_system w)) "windows") eqn:Hw; [|done].
    exfalso. apply H. by apply (string_eqb_lower _ "Windows" "windows").
  - destruct (is_wsl_spec w) as (b & Hb & _). unfold outcome in *.
    rewrite check_os_run.
    destruct (String.eqb (lower (platform_system w)) "windows").
    + by eexists b, _.
    + cbn [snd]. rewrite Hb. by eexists b, _.
Qed.

Lemma platform_probe_effects_witness :
  is_wsl wsl_host = ([], inr true)
  ∧ trace is_wsl mac_host = [EvOpen "/proc/version"]
  ∧ trace check_os windows_host = []
  ∧ trace check_os linux_host = trace is_wsl linux_host.
Proof.
  split; [|split; [|split]].
  - destruct (platform_probe_effects wsl_host) as (H & _).
    apply H. by exists "Ubuntu".
  - destruct (platform_probe_effects mac_host) as (_ & H & _).
    apply H. unfold distro_name_given. intros (v & Hv & _). discriminate Hv.
  - destruct (platform_probe_effects windows_host) as (_ & _ & H & _).
    apply H. reflexivity.
  - destruct (platform_probe_effects linux_host) as (_ & _ & _ & H & _).
    apply H. discriminate.
Defined.

(** X5.  The three platform predicates compare the system name with
    "Windows", "Darwin" and "Linux" without regard to case, so at most one
    of them holds.  [check_os] does not consult [is_linux]: a host that is
    neither Windows nor macOS and shows no WSL signal passes as Linux,
    whatever its system name. *)
Theorem platform_predicates (w : World) :
  ∃ win mac lin,
    is_windows_native w = ([], inr win)
    ∧ is_macos w = ([], inr mac)
    ∧ is_linux w = ([], inr lin)
    ∧ (win = true ↔ same_nocase (platform_system w) "Windows")
    ∧ (mac = true ↔ same_nocase (platform_system w) "Darwin")
    ∧ (lin = true ↔ same_nocase (platform_system w) "Linux")
    ∧ win && mac = false ∧ win && lin = false ∧ mac && lin = false
    ∧ (win = false → mac = false → ¬ wsl_signal w →
       ∃ r, outcome check_os w = inr r
            ∧ ok r = true ∧ details r = "Detected: Linux").
Proof.
  exists (String.eqb (lower (platform_system w)) "windows"),
         (String.eqb (lower (platform_system w)) "darwin"),
         (String.eqb (lower (platform_system w)) "linux").
  do 3 (split; [reflexivity|]).
  split; [by apply (string_eqb_lower _ "Windows")|].
  split; [by apply (string_eqb_lower _ "Darwin")|].
  split; [by apply (string_eqb_lower _ "Linux")|].
  split; [|split; [|split]].
  - destruct (String.eqb_spec (lower (platform_system w)) "windows") as [->|];
      done.
  - destruct (String.eqb_spec (lower (platform_system w)) "windows") as [->|];
      done.
  - destruct (String.eqb_spec (lower (platform_system w)) "darwin") as [->|];
      done.
  - intros Hwin Hmac Hno. unfold outcome. rewrite check_os_run, Hwin, Hmac.
    destruct (is_wsl_spec w) as (b & Hb & Hsig). unfold outcome in Hb.
    cbn [snd]. rewrite Hb. destruct b; [exfalso; by apply Hno, Hsig|].
    by eexists.
Qed.

Lemma platform_predicates_witness :
  ∃ r, outcome is_linux (with_system "FreeBSD" mac_host) = inr false
       ∧ outcome check_os (with_system "FreeBSD" mac_host) = inr r
       ∧ ok r = true ∧ details r = "Detected: Linux".
Proof.
  destruct (platform_predicates (with_system "FreeBSD" mac_host))
    as (win & mac & lin & Hwin & Hmac & Hlin & _ & _ & _ & _ & _ & _ & Hdef).
  injection Hwin as <-. injection Hmac as <-.
  destruct Hdef as (r & Hr & Hok & Hd); [reflexivity|reflexivity| |].
  - unfold wsl_signal, distro_name_given, kernel_has_marker.
    intros [(v & Hv & _)|(text & Ht & _)]; discriminate.
  - exists r. split; [reflexivity|]. split; [exact Hr|]. split; [exact Hok|exact Hd].
Defined.

(** ** More of the script: the scanner and the search path *)

Lemma patterns_unanchored :
  Forall (λ p, ∃ r, re.compile p = Some r ∧ re.anchored r = false) patterns.
Proof. repeat constructor; by eexists. Qed.

Lemma found_extends p text pre post :
  p ∈ patterns → found p text → found p (pre +:+ text +:+ post).
Proof.
  intros Hp.
  destruct (proj1 (list.Forall_forall _ _) patterns_unanchored p Hp)
    as (r & Hc & Ha).
  rewrite !(found_meaning p r _ Hc Ha).
  intros (pre' & m & post' & -> & Hm).
  exists (pre +:+ pre'), m, (post' +:+ post). split; [|done].
  by rewrite !append_assoc.
Qed.

Lemma hygiene_ok_iff strict w :
  ∃ r, outcome (check_windows_path_hygiene strict) w = inr r
       ∧ (ok r = true ↔ found_patterns (search_path w) = [])
       ∧ (ok r = true → details r = "clean").
Proof.
  unfold outcome. rewrite check_windows_path_hygiene_run. cbn [snd].
  eexists. split; [reflexivity|]. cbn [ok details].
  destruct (found_patterns (search_path w)) eqn:Hf.
  - by rewrite bool_decide_eq_true_2.
  - by rewrite bool_decide_eq_false_2.
Qed.

(** X7.  Whatever is put before or after the search path, the patterns
    found in it are still found: lengthening [PATH] at either end never
    turns a failing scan into a passing one. *)
Theorem hygiene_monotone (strict : bool) (w w' : World) (pre post : string) :
  search_path w' = pre +:+ search_path w +:+ post →
  ∃ r r', outcome (check_windows_path_hygiene strict) w = inr r
          ∧ outcome (check_windows_path_hygiene strict) w' = inr r'
          ∧ (∀ p, p ∈ found_patterns (search_path w) →
                  p ∈ found_patterns (search_path w'))
          ∧ (ok r = false → ok r' = false).
Proof.
  intros Hpath.
  destruct (hygiene_ok_iff strict w) as (r & Hr & Hok & _).
  destruct (hygiene_ok_iff strict w') as (r' & Hr' & Hok' & _).
  exists r, r'. split; [done|]. split; [done|].
  assert (∀ p, p ∈ found_patterns (search_path w) →
               p ∈ found_patterns (search_path w')) as Hmono.
  { intros p Hp. apply elem_of_found_patterns in Hp as [Hp Hf].
    apply elem_of_found_patterns. split; [done|].
    rewrite Hpath. by apply found_extends. }
  split; [done|].
  intros Hfail. apply not_true_is_false. intros Hpass.
  apply Hok' in Hpass. apply not_true_iff_false in Hfail. apply Hfail, Hok.
  destruct (found_patterns (search_path w)) as [|p ps]; [done|].
  specialize (Hmono p (list_elem_of_here _ _)).
  rewrite Hpass in Hmono. by apply elem_of_nil in Hmono.
Qed.

Lemma hygiene_monotone_witness :
  ∃ r', outcome (check_windows_path_hygiene true)
          (with_environ
             {[ "PATH" := "/home/dev/bin:/mnt/c/Program Files/nodejs:/usr/bin:/opt" ]}
             linux_host) = inr r'
        ∧ ok r' = false.
Proof.
  destruct (hygiene_monotone true linux_host
              (with_environ
                 {[ "PATH" := "/home/dev/bin:/mnt/c/Program Files/nodejs:/usr/bin:/opt" ]}
                 linux_host)
              "/home/dev/bin:" ":/opt")
    as (r & r' & Hr & Hr' & _ & Hfail); [reflexivity|].
  exists r'. split; [exact Hr'|]. apply Hfail.
  injection Hr as <-. reflexivity.
Defined.

Lemma lower_char_idem c : lower_char (lower_char c) = lower_char c.
Proof. destruct c as [[] [] [] [] [] [] [] []]; reflexivity. Qed.

Lemma upper_lower_char c : upper_char (lower_char c) = upper_char c.
Proof. destruct c as [[] [] [] [] [] [] [] []]; reflexivity. Qed.

Lemma lower_or_upper_fixed c : lower_char c = c ∨ upper_char c = c.
Proof. destruct c as [[] [] [] [] [] [] [] []]; (by left) || (by right). Qed.

Lemma lower_char_newline c :
  Ascii.eqb (lower_char c) "010" = Ascii.eqb c "010".
Proof. destruct c as [[] [] [] [] [] [] [] []]; reflexivity. Qed.

(** Under [re.IGNORECASE] an atom does not tell a character from its
    lower-case form. *)
Lemma accepts_lower a c :
  re.accepts true a (lower_char c) = re.accepts true a c.
Proof.
  destruct a as [l| |neg rs]; cbn [re.accepts].
  - by rewrite lower_char_idem.
  - by rewrite lower_char_newline.
  - f_equal. induction rs as [|r rs IH]; [done|].
    cbn [existsb]. rewrite IH. f_equal.
    unfold re.range_accepts. cbn [andb].
    rewrite lower_char_idem, upper_lower_char.
    destruct (lower_or_upper_fixed c) as [->| ->].
    + by destruct (in_range r.1 r.2 c), (in_range r.1 r.2 (upper_char c)).
    + by destruct (in_range r.1 r.2 c), (in_range r.1 r.2 (lower_char c)).
Qed.

Lemma match_here_lower its s :
  re.match_here true its (lower s) = re.match_here true its s.
Proof.
  revert s. induction its as [|[a q] its IH]; intros s; [done|].
  assert (∀ s, re.match_here true ((a, re.Star) :: its) (lower s)
               = re.match_here true ((a, re.Star) :: its) s) as Hstar.
  { clear s. intros s. induction s as [|c s IHs].
    - rewrite !match_here_star. by rewrite IH.
    - rewrite (match_here_star _ _ _ (lower (String c s))).
      rewrite (match_here_star _ _ _ (String c s)).
      rewrite IH. cbn [lower]. by rewrite accepts_lower, IHs. }
  destruct q.
  - rewrite !match_here_one. destruct s as [|c s]; [done|].
    cbn [lower]. by rewrite accepts_lower, IH.
  - apply Hstar.
  - rewrite !match_here_plus. destruct s as [|c s]; [done|].
    cbn [lower]. by rewrite accepts_lower, Hstar.
  - rewrite !match_here_opt, IH. destruct s as [|c s]; [done|].
    cbn [lower]. by rewrite accepts_lower, IH.
Qed.

Lemma match_anywhere_lower its s :
  re.match_anywhere true its (lower s) = re.match_anywhere true its s.
Proof.
  induction s as [|c s IH]; [done|].
  cbn [re.match_anywhere].
  change (re.match_anywhere true its (lower (String c s)))
    with (re.match_here true its (lower (String c s))
          || re.match_anywhere true its (lower s)).
  by rewrite match_here_lower, IH.
Qed.

Lemma found_patterns_lower text :
  found_patterns (lower text) = found_patterns text.
Proof.
  unfold found_patterns. apply filter_ext. intros p.
  destruct (re.compile p) as [r|]; [|done]. unfold re.searches.
  destruct (re.anchored r);
    [apply match_here_lower|apply match_anywhere_lower].
Qed.

(** X8.  The scanner does not see the case of letters: two search paths
    that are equal up to case get the same result, hits included. *)
Theorem hygiene_ignores_case (strict : bool) (w w' : World) :
  same_nocase (search_path w) (search_path w') →
  check_windows_path_hygiene strict w = check_windows_path_hygiene strict w'.
Proof.
  intros Hcase. rewrite !check_windows_path_hygiene_run.
  assert (found_patterns (search_path w) = found_patterns (search_path w'))
    as ->; [|done].
  rewrite <-(found_patterns_lower (search_path w)).
  rewrite <-(found_patterns_lower (search_path w')). by rewrite Hcase.
Qed.

Lemma hygiene_ignores_case_witness :
  check_windows_path_hygiene false linux_host
  = check_windows_path_hygiene false
      (with_environ {[ "PATH" := "/MNT/C/PROGRAM FILES/NODEJS:/usr/bin" ]}
                    linux_host).
Proof.
  apply (hygiene_ignores_case false linux_host
           (with_environ {[ "PATH" := "/MNT/C/PROGRAM FILES/NODEJS:/usr/bin" ]}
                         linux_host)).
  reflexivity.
Defined.

Lemma has_nocase_contains t text :
  has_nocase t text ↔ contains (lower t) (lower text) = true.
Proof.
  rewrite contains_spec. unfold has_nocase, same_nocase. split.
  - intros (pre & m & post & -> & Hm).
    exists (lower pre), (lower post). by rewrite !lower_app, Hm.
  - intros (pre & post & H).
    apply lower_split in H as (pre' & rest & -> & _ & H).
    apply lower_split in H as (m & post' & -> & Hm & _).
    by exists pre', m, post'.
Qed.

Lemma has_nocase_prefix t1 t2 text :
  has_nocase (t1 +:+ t2) text → has_nocase t1 text.
Proof.
  intros (pre & m & post & -> & Hm). unfold same_nocase in Hm.
  rewrite lower_app in Hm.
  apply lower_split in Hm as (m1 & m2 & -> & Hm1 & _).
  exists pre, m1, (m2 +:+ post). split; [|done]. by rewrite !append_assoc.
Qed.

Lemma has_user_dir_prefix t1 t1' t2 text :
  has_user_dir (t1 +:+ t1') t2 text → has_nocase t1 text.
Proof.
  intros (pre & a & user & b & post & -> & Ha & _ & _).
  unfold same_nocase in Ha. rewrite lower_app in Ha.
  apply lower_split in Ha as (a1 & a2 & -> & Ha1 & _).
  exists pre, a1, (a2 +:+ user +:+ b +:+ post). split; [|done].
  by rewrite !append_assoc.
Qed.

Lemma found_needs_drive_c p text :
  p ∈ patterns → found p text → has_nocase "/mnt/c/" text.
Proof.
  intros Hp Hf. unfold patterns in Hp.
  repeat (apply elem_of_cons in Hp as [->|Hp]).
  - apply (found_literal _ "/mnt/c/Program Files/nodejs") in Hf; [|done].
    by apply (has_nocase_prefix "/mnt/c/" "Program Files/nodejs").
  - apply (found_literal _ "/mnt/c/Program Files (x86)/nodejs") in Hf; [|done].
    by apply (has_nocase_prefix "/mnt/c/" "Program Files (x86)/nodejs").
  - apply (found_user_dir _ "/mnt/c/Users/" "/AppData/Roaming/npm") in Hf;
      [|done].
    by apply (has_user_dir_prefix "/mnt/c/" "Users/" _ _ Hf).
  - apply (found_user_dir _ "/mnt/c/Users/"
             "/AppData/Local/Microsoft/WindowsApps") in Hf; [|done].
    by apply (has_user_dir_prefix "/mnt/c/" "Users/" _ _ Hf).
  - apply (found_user_dir _ "/mnt/c/Users/"
             "/AppData/Local/Programs/Python") in Hf; [|done].
    by apply (has_user_dir_prefix "/mnt/c/" "Users/" _ _ Hf).
  - by apply elem_of_nil in Hp.
Qed.

(** X9.  The scanner only knows drive C: a search path in which
    [/mnt/c/] does not occur, in any mix of cases, is reported clean, and
    so is an unset [PATH], which is read as the empty string.  Windows
    locations under another drive letter are not reported. *)
Theorem hygiene_only_drive_c (strict : bool) (w : World) :
  ∃ r, outcome (check_windows_path_hygiene strict) w = inr r
  ∧ (¬ has_nocase "/mnt/c/" (search_path w) →
     ok r = true ∧ details r = "clean")
  ∧ (environ w !! "PATH" = None → ok r = true ∧ details r = "clean").
Proof.
  destruct (hygiene_ok_iff strict w) as (r & Hr & Hok & Hclean).
  exists r. split; [done|].
  assert (¬ has_nocase "/mnt/c/" (search_path w) →
          ok r = true ∧ details r = "clean") as Hdrive.
  { intros Hno. assert (ok r = true) as Hpass; [|by auto].
    apply Hok. destruct (found_patterns (search_path w)) as [|p ps] eqn:Hf;
      [done|].
    exfalso. apply Hno.
    assert (p ∈ found_patterns (search_path w)) as Hin by (rewrite Hf; left).
    apply elem_of_found_patterns in Hin as [Hp Hfound].
    by apply (found_needs_drive_c p). }
  split; [done|].
  intros Hnone. apply Hdrive. unfold search_path. rewrite Hnone.
  rewrite has_nocase_contains. done.
Qed.

Lemma hygiene_only_drive_c_witness :
  (∃ r, outcome (check_windows_path_hygiene true)
          (with_environ {[ "PATH" := "/mnt/d/Program Files/nodejs:/usr/bin" ]}
                        linux_host) = inr r
        ∧ ok r = true ∧ details r = "clean")
  ∧ (∃ r, outcome (check_windows_path_hygiene true)
            (with_environ ∅ linux_host) = inr r
          ∧ ok r = true ∧ details r = "clean").
Proof.
  split.
  - destruct (hygiene_only_drive_c true
                (with_environ {[ "PATH" := "/mnt/d/Program Files/nodejs:/usr/bin" ]}
                              linux_host)) as (r & Hr & Hdrive & _).
    exists r. split; [exact Hr|]. apply Hdrive.
    rewrite has_nocase_contains. discriminate.
  - destruct (hygiene_only_drive_c true (with_environ ∅ linux_host))
      as (r & Hr & _ & Hunset).
    exists r. split; [exact Hr|]. apply Hunset. reflexivity.
Defined.

(** ** More of the script: the details of the version check *)


Lemma split_ws_aux_nil cur s :
  split_ws_aux cur s = [] ↔ cur = "" ∧ blank s = true.
Proof.
  unfold blank. revert cur. induction s as [|c s IH]; intros cur;
    cbn [split_ws_aux all_chars].
  - destruct cur; by intuition.
  - destruct (is_space c).
    + destruct cur as [|d cur]; cbn [truthy app].
      * rewrite IH. by intuition.
      * by intuition.
    + rewrite IH. cbn. by intuition.
Qed.




(** ** More of the script: [main] *)

Lemma bind_pair {A B} (m : Py A) (f : A → Py B) w x :
  outcome m w = inr x →
  (m ≫= f) w = (trace m w ++ trace (f x) w, outcome (f x) w).
Proof.
  unfold outcome, trace. intros Hm. rewrite bind_run.
  destruct (m w) as [t r]. cbn [snd] in Hm. subst r. cbn [fst].
  by destruct (f x w).
Qed.

Lemma run_pair {A} (m : Py A) w : m w = (trace m w, outcome m w).
Proof. unfold trace, outcome. by destruct (m w). Qed.

Lemma trace_bind {A B} (m : Py A) (f : A → Py B) w x :
  outcome m w = inr x → trace (m ≫= f) w = trace m w ++ trace (f x) w.
Proof. intros H. unfold trace at 1. by rewrite (bind_pair _ _ _ _ H). Qed.

Lemma outcome_bind {A B} (m : Py A) (f : A → Py B) w x :
  outcome m w = inr x → outcome (m ≫= f) w = outcome (f x) w.
Proof. intros H. unfold outcome at 1. by rewrite (bind_pair _ _ _ _ H). Qed.

Lemma out_nil {A} (m : Py A) w x : m w = ([], x) → (m w).1 = [].
Proof. by intros ->. Qed.

Lemma bind_raise {A B} (m : Py A) (f : A → Py B) w e :
  outcome m w = inl e → (m ≫= f) w = (trace m w, inl e).
Proof.
  unfold outcome, trace. intros Hm. rewrite bind_run.
  destruct (m w) as [t r]. cbn [snd] in Hm. by subst r.
Qed.

Lemma check_bin_outcome nm req label w :
  outcome (check_bin nm req label) w =
  inr {| name := label +:+ " is installed";
         ok := bool_decide (shutil_which w nm ≠ None);
         details := or_else (shutil_which w nm) "not found";
         fix_ := "Install `" +:+ label
                 +:+ "` in WSL/Linux/macOS and ensure it is on PATH.";
         required := req |}.
Proof. reflexivity. Qed.

Lemma check_node_nvm_outcome strict w :
  outcome (check_node_nvm strict) w =
  inr {| name := "Node.js is installed via nvm";
         ok := match shutil_which w "node" with
               | Some n => truthy n && contains ".nvm" n
               | None => false
               end;
         details := or_else (shutil_which w "node") "node not found";
         fix_ := "Install Node.js via nvm and run `nvm use`.";
         required := strict |}.
Proof. reflexivity. Qed.

Lemma check_os_returns w : ∃ r, outcome check_os w = inr r.
Proof.
  destruct (is_wsl_spec w) as (b & Hb & _). unfold outcome in *.
  rewrite check_os_run.
  destruct (String.eqb (lower (platform_system w)) "windows"); [by eexists|].
  cbn [snd]. rewrite Hb. by eexists.
Qed.

Lemma check_os_trace w :
  existsb spawns (trace check_os w) = false
  ∧ looked_up (trace check_os w) = []
  ∧ printed (trace check_os w) = [].
Proof.
  unfold trace. rewrite check_os_run.
  destruct (String.eqb (lower (platform_system w)) "windows"); [done|].
  cbn [fst]. rewrite is_wsl_run. by destruct (truthy_opt _).
Qed.

Lemma check_project_path_returns p w :
  ∃ r, check_project_path p w = ([], inr r).
Proof. destruct (check_project_path_run p w) as (b & _ & ->). by eexists. Qed.

Lemma check_python_version_returns w :
  blank (sys_version w) = false →
  ∃ r, check_python_version w = ([], inr r).
Proof.
  intros Hb. rewrite check_python_version_run.
  destruct (split_ws (sys_version w)) eqn:Hs; [|by eexists].
  apply split_ws_aux_nil in Hs as [_ Hs]. congruence.
Qed.

Lemma check_python_version_raises w :
  blank (sys_version w) = true →
  check_python_version w = ([], inl IndexError).
Proof.
  intros Hb. rewrite check_python_version_run.
  assert (split_ws (sys_version w) = []) as -> by by apply split_ws_aux_nil.
  done.
Qed.

(** [main] in closed form: the effects of the checks in order, then the
    report of their results. *)
Lemma main_run project strict w :
  blank (sys_version w) = false →
  ∃ cs,
    Forall2 (λ m c, outcome m w = inr c)
            (checks (default (getcwd w) project) strict) cs
    ∧ main project strict w =
      (trace check_os w
       ++ (EvWhich <$> ["node"; "uv"; "gh"; "claude"; "codex"; "gemini"; "node"])
       ++ (EvPrint <$> ((cs ≫= entry_lines) ++ [summary cs])),
       inr (exit_status cs)).
Proof.
  intros Hb. set (p := default (getcwd w) project).
  destruct (check_os_returns w) as (c1 & H1).
  destruct (check_project_path_returns p w) as (c2 & H2').
  destruct (check_python_version_returns w Hb) as (c3 & H3').
  destruct (hygiene_ok_iff strict w) as (c11 & H11 & _).
  assert (outcome (check_project_path p) w = inr c2) as H2
    by (unfold outcome; by rewrite H2').
  assert (outcome check_python_version w = inr c3) as H3
    by (unfold outcome; by rewrite H3').
  eexists [c1; c2; c3; _; _; _; _; _; _; _; c11]. split.
  - repeat constructor; done.
  - rewrite (run_pair (main project strict) w). f_equal.
    + unfold main. rewrite (trace_bind _ _ _ (getcwd w)) by done.
      change (trace (ask getcwd) w) with (@nil event). cbn [app]. fold p.
      rewrite (trace_bind _ _ _ _ H1), (trace_bind _ _ _ _ H2),
        (trace_bind _ _ _ _ H3).
      do 6 (rewrite (trace_bind _ _ _ _ (check_bin_outcome _ _ _ w))).
      rewrite (trace_bind _ _ _ _ (check_node_nvm_outcome strict w)).
      rewrite (trace_bind _ _ _ _ H11).
      unfold trace at 2 3. rewrite (out_nil _ _ _ H2'), (out_nil _ _ _ H3').
      unfold trace at 9 10. rewrite check_windows_path_hygiene_run.
      rewrite print_results_run. reflexivity.
    + unfold main. rewrite (outcome_bind _ _ _ (getcwd w)) by done. fold p.
      rewrite (outcome_bind _ _ _ _ H1), (outcome_bind _ _ _ _ H2),
        (outcome_bind _ _ _ _ H3).
      do 6 (rewrite (outcome_bind _ _ _ _ (check_bin_outcome _ _ _ w))).
      rewrite (outcome_bind _ _ _ _ (check_node_nvm_outcome strict w)).
      rewrite (outcome_bind _ _ _ _ H11).
      unfold outcome. by rewrite print_results_run.
Qed.

Lemma exists_in_cons {A} (Q : A → Prop) x l :
  (∃ r, r ∈ x :: l ∧ Q r) ↔ Q x ∨ ∃ r, r ∈ l ∧ Q r.
Proof.
  split.
  - intros (r & Hin & Hq). apply elem_of_cons in Hin as [->|Hin]; [by left|].
    right. by exists r.
  - intros [Hq|(r & Hin & Hq)]; [exists x|exists r]; (split; [|done]);
      [left|by right].
Qed.

Lemma exists_in_nil {A} (Q : A → Prop) : (∃ r, r ∈ @nil A ∧ Q r) ↔ False.
Proof. split; [|done]. intros (r & Hin & _). by apply elem_of_nil in Hin. Qed.

Lemma check_os_failing w r :
  outcome check_os w = inr r →
  failing r ↔ same_nocase (platform_system w) "Windows".
Proof.
  unfold outcome, failing. rewrite check_os_run.
  rewrite <-(string_eqb_lower _ "Windows" "windows" eq_refl).
  destruct (String.eqb (lower (platform_system w)) "windows").
  - intros [= <-]. by cbn.
  - cbn [snd]. destruct (is_wsl w).2; [done|]. intros [= <-]. cbn.
    by intuition.
Qed.

Lemma check_project_path_failing p w r :
  outcome (check_project_path p) w = inr r →
  failing r ↔ on_drive_mount (absolute_form w p).
Proof.
  intros Hr.
  destruct (check_project_path_outcome p w) as (r' & Hr' & Hreq & _ & Hf & _).
  assert (r' = r) as -> by congruence.
  unfold failing. rewrite Hreq, Hf. by intuition.
Qed.

Lemma check_python_version_failing w r :
  outcome check_python_version w = inr r →
  failing r ↔ ¬ at_least_3_10 (sys_version_info w).
Proof.
  unfold outcome, failing. rewrite check_python_version_run.
  destruct (split_ws (sys_version w)); [done|]. intros [= <-].
  cbn [ok required]. unfold at_least_3_10.
  rewrite <-tuple_ge_3_10, not_true_iff_false. by intuition.
Qed.

Lemma check_bin_failing nm req label w r :
  outcome (check_bin nm req label) w = inr r →
  failing r ↔ req = true ∧ shutil_which w nm = None.
Proof.
  rewrite check_bin_outcome. intros [= <-]. unfold failing. cbn [ok required].
  destruct (shutil_which w nm).
  - rewrite bool_decide_eq_true_2 by done. by intuition.
  - rewrite bool_decide_eq_false_2 by (by intros H; apply H). by intuition.
Qed.

Lemma check_node_nvm_failing strict w r :
  outcome (check_node_nvm strict) w = inr r →
  failing r ↔ strict = true ∧ ¬ node_via_nvm w.
Proof.
  rewrite check_node_nvm_outcome. intros [= <-]. unfold failing, node_via_nvm.
  cbn [ok required].
  assert (match shutil_which w "node" with
          | Some n => truthy n && contains ".nvm" n
          | None => false
          end = true
          ↔ ∃ p, shutil_which w "node" = Some p ∧ has_substring ".nvm" p) as Hok.
  { destruct (shutil_which w "node") as [p|].
    - rewrite andb_true_iff, contains_spec. unfold has_substring. split.
      + intros [_ H]. by exists p.
      + intros (p' & [= <-] & pre & post & ->). split; [|by exists pre, post].
        by destruct pre.
    - split; [done|]. by intros (p & ? & _). }
  rewrite <-Hok, not_true_iff_false. done.
Qed.

Lemma hygiene_failing strict w r :
  outcome (check_windows_path_hygiene strict) w = inr r →
  failing r ↔ strict = true ∧ windows_in_path w.
Proof.
  unfold outcome, failing, windows_in_path.
  rewrite check_windows_path_hygiene_run. intros [= <-]. cbn [ok required].
  assert (bool_decide (List.length (found_patterns (search_path w)) = 0%nat)
          = false
          ↔ ∃ p, p ∈ patterns ∧ found p (search_path w)) as ->; [|done].
  destruct (found_patterns (search_path w)) as [|p ps] eqn:Hf.
  - rewrite bool_decide_eq_true_2 by done. split; [done|].
    intros (p & Hp). apply elem_of_found_patterns in Hp.
    rewrite Hf in Hp. by apply elem_of_nil in Hp.
  - rewrite bool_decide_eq_false_2 by done. split; [|done]. intros _.
    exists p. apply elem_of_found_patterns. rewrite Hf. left.
Qed.

Lemma exit_status_failing cs :
  (exit_status cs = 1 ∨ exit_status cs = 0)
  ∧ (exit_status cs = 1 ↔ ∃ r, r ∈ cs ∧ failing r).
Proof.
  unfold exit_status, failing. rewrite <-has_failed_required.
  destruct (nonempty (failed_required cs)); [split; [by left|done]|].
  split; [by right|done].
Qed.

(** The exit status of [main] in terms of the host. *)
Lemma main_exit_blocked project strict w :
  blank (sys_version w) = false →
  ∃ code, outcome (main project strict) w = inr code
          ∧ (code = 1 ∨ code = 0)
          ∧ (code = 1 ↔ blocked project strict w).
Proof.
  intros Hb. destruct (main_run project strict w Hb) as (cs & Hcs & Hmain).
  exists (exit_status cs). unfold outcome. rewrite Hmain. cbn [snd].
  split; [done|]. destruct (exit_status_failing cs) as [Hcases Hfail].
  split; [done|]. rewrite Hfail. clear Hfail Hcases Hmain.
  unfold checks in Hcs.
  repeat match goal with
         | H : Forall2 _ (_ :: _) _ |- _ =>
             apply Forall2_cons_inv_l in H as (? & ? & ? & H & ->)
         | H : Forall2 _ [] _ |- _ => apply Forall2_nil_inv_l in H as ->
         end.
  rewrite !exists_in_cons, exists_in_nil.
  repeat match goal with
         | H : outcome check_os _ = inr _ |- _ =>
             rewrite (check_os_failing _ _ H); clear H
         | H : outcome (check_project_path _) _ = inr _ |- _ =>
             rewrite (check_project_path_failing _ _ _ H); clear H
         | H : outcome check_python_version _ = inr _ |- _ =>
             rewrite (check_python_version_failing _ _ H); clear H
         | H : outcome (check_bin _ _ _) _ = inr _ |- _ =>
             rewrite (check_bin_failing _ _ _ _ _ H); clear H
         | H : outcome (check_node_nvm _) _ = inr _ |- _ =>
             rewrite (check_node_nvm_failing _ _ _ H); clear H
         | H : outcome (check_windows_path_hygiene _) _ = inr _ |- _ =>
             rewrite (hygiene_failing _ _ _ H); clear H
         end.
  unfold blocked. by intuition.
Qed.



(** X12.  [--strict] only adds reasons to fail: a run that fails without
    it fails with it.  And the exit status does not depend on what the
    lookup says about any program other than [node], [uv] and [gh]:
    installing or removing [claude], [codex] or [gemini] never changes
    it. *)
Theorem main_strict_and_optional (project : option string) (w : World) :
  blank (sys_version w) = false →
  (outcome (main project false) w = inr 1 →
   outcome (main project true) w = inr 1)
  ∧ (∀ strict f,
       f "node" = shutil_which w "node" →
       f "uv" = shutil_which w "uv" →
       f "gh" = shutil_which w "gh" →
       outcome (main project strict) (with_which f w)
       = outcome (main project strict) w).
Proof.
  intros Hb. split.
  - destruct (main_exit_blocked project false w Hb) as (c0 & -> & _ & H0).
    destruct (main_exit_blocked project true w Hb) as (c1 & -> & _ & H1).
    intros [= ->]. f_equal. apply H1.
    destruct (proj1 H0 eq_refl) as [H|[H|[H|[H|[H|[H|[H _]]]]]]];
      unfold blocked; try discriminate H; by intuition.
  - intros strict f Hnode Huv Hgh.
    destruct (main_exit_blocked project strict w Hb) as (c & -> & Hc & Hw).
    destruct (main_exit_blocked project strict (with_which f w) Hb)
      as (c' & -> & Hc' & Hw').
    assert (blocked project strict (with_which f w) ↔ blocked project strict w)
      as Hsame.
    { unfold blocked, node_via_nvm, windows_in_path, search_path, absolute_form.
      cbn [with_which platform_system environ getcwd sys_version_info
           shutil_which].
      by rewrite Hnode, Huv, Hgh. }
    f_equal. destruct Hc as [->| ->], Hc' as [->| ->]; try done.
    + exfalso. assert (0 = 1) as Habs; [|done].
      apply Hw', Hsame, Hw. done.
    + exfalso. assert (0 = 1) as Habs; [|done].
      apply Hw, Hsame, Hw'. done.
Qed.

Lemma main_strict_and_optional_witness :
  outcome (main None false)
    (with_which (λ n, if String.eqb n "claude" then Some "/usr/bin/claude"
                      else shutil_which linux_host n) linux_host)
  = outcome (main None false) linux_host.
Proof.
  apply (main_strict_and_optional None linux_host); reflexivity.
Defined.

Lemma existsb_prints ls : existsb spawns (EvPrint <$> ls) = false.
Proof. induction ls as [|l ls IH]; [done|]. by rewrite fmap_cons. Qed.

Lemma looked_up_prints ls : looked_up (EvPrint <$> ls) = [].
Proof.
  induction ls as [|l ls IH]; [done|].
  rewrite fmap_cons. unfold looked_up in *. by cbn [omap list_omap].
Qed.

Lemma opened_prints ls : opened (EvPrint <$> ls) = [].
Proof.
  induction ls as [|l ls IH]; [done|].
  rewrite fmap_cons. unfold opened in *. by cbn [omap list_omap].
Qed.

Lemma opened_app t1 t2 : opened (t1 ++ t2) = opened t1 ++ opened t2.
Proof. apply omap_app. Qed.

Lemma looked_up_app t1 t2 : looked_up (t1 ++ t2) = looked_up t1 ++ looked_up t2.
Proof. apply omap_app. Qed.

Lemma opened_whiches ls : opened (EvWhich <$> ls) = [].
Proof.
  induction ls as [|l ls IH]; [done|].
  rewrite fmap_cons. unfold opened in *. by cbn [omap list_omap].
Qed.

Lemma looked_up_whiches ls : looked_up (EvWhich <$> ls) = ls.
Proof.
  induction ls as [|l ls IH]; [done|].
  rewrite fmap_cons. unfold looked_up in *. cbn [omap list_omap]. by rewrite IH.
Qed.

Lemma check_os_opened w :
  opened (trace check_os w) = [] ∨ opened (trace check_os w) = ["/proc/version"].
Proof.
  unfold trace. rewrite check_os_run.
  destruct (String.eqb (lower (platform_system w)) "windows"); [by left|].
  cbn [fst]. rewrite is_wsl_run. destruct (truthy_opt _); [by left|by right].
Qed.

(** X13.  On a host whose interpreter reports a version string, [main]
    starts no subprocess, opens no file but the kernel-version file (once
    at most), looks up [node], [uv], [gh], [claude], [codex], [gemini] and
    [node] again, in this order, and prints one entry for each of its
    eleven checks, in the order of the list, followed by the summary. *)
Theorem main_effects (project : option string) (strict : bool) (w : World) :
  blank (sys_version w) = false →
  existsb spawns (trace (main project strict) w) = false
  ∧ (opened (trace (main project strict) w) = []
     ∨ opened (trace (main project strict) w) = ["/proc/version"])
  ∧ looked_up (trace (main project strict) w)
    = ["node"; "uv"; "gh"; "claude"; "codex"; "gemini"; "node"]
  ∧ ∃ cs, Forall2 (λ m c, outcome m w = inr c)
                  (checks (default (getcwd w) project) strict) cs
          ∧ List.length cs = 11%nat
          ∧ printed (trace (main project strict) w)
            = (cs ≫= entry_lines) ++ [summary cs].
Proof.
  intros Hb. destruct (main_run project strict w Hb) as (cs & Hcs & Hmain).
  destruct (check_os_trace w) as (Hsp & Hlk & Hpr).
  unfold trace at 1 2 3 4 5. rewrite Hmain. cbn [fst].
  split; [|split; [|split]].
  - by rewrite !existsb_app, Hsp, existsb_prints.
  - rewrite !opened_app, opened_prints, opened_whiches, !app_nil_r.
    apply check_os_opened.
  - by rewrite !looked_up_app, Hlk, looked_up_prints, looked_up_whiches,
      app_nil_r.
  - exists cs. split; [done|]. split.
    + apply Forall2_length in Hcs. by rewrite <-Hcs.
    + rewrite !printed_app, Hpr, printed_prints. done.
Qed.

Lemma main_effects_witness :
  existsb spawns (trace (main None true) wsl_kernel_host) = false
  ∧ looked_up (trace (main None true) wsl_kernel_host)
    = ["node"; "uv"; "gh"; "claude"; "codex"; "gemini"; "node"].
Proof.
  destruct (main_effects None true wsl_kernel_host) as (H1 & _ & H2 & _);
    [reflexivity|].
  split; [exact H1|exact H2].
Defined.

(** X14.  When [sys.version] is blank, [main] raises the [IndexError] of
    the version check: the platform and project checks have run, no
    program has been looked up, and nothing has been printed, not even
    the results already computed. *)
Theorem main_raises (project : option string) (strict : bool) (w : World) :
  blank (sys_version w) = true →
  outcome (main project strict) w = inl IndexError
  ∧ trace (main project strict) w = trace check_os w
  ∧ printed (trace (main project strict) w) = []
  ∧ looked_up (trace (main project strict) w) = [].
Proof.
  intros Hb. set (p := default (getcwd w) project).
  destruct (check_os_returns w) as (c1 & H1).
  destruct (check_project_path_returns p w) as (c2 & H2').
  assert (outcome (check_project_path p) w = inr c2) as H2
    by (unfold outcome; by rewrite H2').
  pose proof (check_python_version_raises w Hb) as H3.
  assert (main project strict w = (trace check_os w, inl IndexError)) as Hmain.
  { rewrite (run_pair (main project strict) w). f_equal.
    - unfold main. rewrite (trace_bind _ _ _ (getcwd w)) by done.
      change (trace (ask getcwd) w) with (@nil event). cbn [app]. fold p.
      rewrite (trace_bind _ _ _ _ H1), (trace_bind _ _ _ _ H2).
      unfold trace at 2 3. rewrite H2'. cbn [fst app].
      rewrite (bind_raise _ _ _ IndexError) by (unfold outcome; by rewrite H3).
      unfold trace at 2. rewrite H3. cbn [fst]. by rewrite app_nil_r.
    - unfold main. rewrite (outcome_bind _ _ _ (getcwd w)) by done. fold p.
      rewrite (outcome_bind _ _ _ _ H1), (outcome_bind _ _ _ _ H2).
      unfold outcome at 1.
      by rewrite (bind_raise _ _ _ IndexError) by (unfold outcome; by rewrite H3). }
  destruct (check_os_trace w) as (_ & Hlk & Hpr).
  unfold outcome, trace at 1 3 4. rewrite Hmain. cbn [fst snd].
  by rewrite Hpr, Hlk.
Qed.

Lemma main_raises_witness :
  outcome (main None false) (with_version_string "" linux_host) = inl IndexError
  ∧ printed (trace (main None false) (with_version_string "" linux_host)) = [].
Proof.
  destruct (main_raises None false (with_version_string "" linux_host))
    as (H1 & _ & H2 & _); [reflexivity|].
  split; [exact H1|exact H2].
Defined.

(** ** More of the script: the report *)


(** X16.  When some required result is not ok, the report ends with the
    FAILED line, which gives the number of results that are required and
    not ok, at least one; the optional results that are not ok are neither
    counted nor mentioned in it. *)
Theorem print_results_failed_summary (rs : list CheckResult) (w : World) :
  (∃ r, r ∈ rs ∧ required r = true ∧ ok r = false) →
  ∃ n, list.last (printed (trace (print_results rs) w))
       = Some ("❌ Environment check FAILED (" +:+ pretty n
               +:+ " required issue(s))")
       ∧ n = List.length (failed_required rs)
       ∧ (1 ≤ n)%nat
       ∧ ∀ r, r ∈ failed_required rs ↔ r ∈ rs ∧ required r = true ∧ ok r = false.
Proof.
  intros Hfail. apply has_failed_required in Hfail.
  exists (List.length (failed_required rs)).
  rewrite last_report. unfold summary. rewrite Hfail.
  split; [done|]. split; [done|]. split.
  - destruct (failed_required rs); [done|]. cbn. lia.
  - intros r. unfold failed_required.
    rewrite list_elem_of_In, filter_In, <-list_elem_of_In, andb_true_iff,
      negb_true_iff. done.
Qed.

Lemma print_results_failed_summary_witness :
  list.last (printed (trace (print_results
                               [failed_gh; failed_codex; passed_uv; failed_gh])
                            linux_host))
  = Some "❌ Environment check FAILED (2 required issue(s))".
Proof.
  destruct (print_results_failed_summary
              [failed_gh; failed_codex; passed_uv; failed_gh] linux_host)
    as (n & Hlast & -> & _).
  - exists failed_gh. split; [left|done].
  - exact Hlast.
Defined.

Lemma nonempty_app {A} (l1 l2 : list A) :
  nonempty (l1 ++ l2) = nonempty l1 || nonempty l2.
Proof. by destruct l1. Qed.

(** X17.  The exit status of a list of results put together from two
    lists is the larger of the two exit statuses, so a failure is never
    hidden by more results; and for no result at all [print_results]
    prints the plain PASSED line alone and returns 0. *)
Theorem print_results_app (rs1 rs2 : list CheckResult) (w : World) :
  (∃ c1 c2,
     outcome (print_results rs1) w = inr c1
     ∧ outcome (print_results rs2) w = inr c2
     ∧ outcome (print_results (rs1 ++ rs2)) w = inr (c1 `max` c2))
  ∧ print_results [] w = ([EvPrint "✅ Environment check PASSED"], inr 0).
Proof.
  split; [|done].
  exists (exit_status rs1), (exit_status rs2).
  unfold outcome. rewrite !print_results_run. cbn [snd].
  split; [done|]. split; [done|]. f_equal.
  unfold exit_status, failed_required.
  rewrite filter_app, nonempty_app.
  by destruct (nonempty _), (nonempty _).
Qed.

(** ** More of the script: how the project path is resolved *)

Lemma startswith_sep_app a x :
  startswith "/" a = true → startswith "/" (a +:+ x) = true.
Proof. by destruct a. Qed.

Lemma isabs_join cwd p : isabs cwd = true → isabs (join cwd p) = true.
Proof.
  unfold isabs, join. intros Hcwd.
  destruct (startswith "/" p) eqn:Hp; [done|].
  destruct (negb (truthy cwd) || endswith_sep cwd);
    by apply startswith_sep_app.
Qed.

Lemma isabs_normpath p : isabs p = true → isabs (normpath p) = true.
Proof.
  unfold isabs, normpath. intros Hp.
  rewrite bool_decide_eq_false_2 by (by intros ->).
  rewrite Hp.
  by destruct (startswith "//" p && negb (startswith "///" p)).
Qed.

Lemma check_project_path_same_form p p' w :
  absolute_form w p = absolute_form w p' →
  check_project_path p w = check_project_path p' w.
Proof.
  intros Hform.
  destruct (check_project_path_run p w) as (b & Hb & ->).
  destruct (check_project_path_run p' w) as (b' & Hb' & ->).
  rewrite <-Hform in *. assert (b = b') as ->; [|done].
  destruct b, b'; try done.
  - symmetry. by apply Hb', Hb.
  - by apply Hb, Hb'.
Qed.

(** X18.  In a process whose working directory is an absolute path, the
    details of [check_project_path] are always an absolute path, and a
    relative project path gets the very result of the path made by joining
    it to the working directory: it is judged by where the process runs. *)
Theorem check_project_path_resolution (p : string) (w : World) :
  isabs (getcwd w) = true →
  (∃ r, outcome (check_project_path p) w = inr r ∧ isabs (details r) = true)
  ∧ (isabs p = false →
     check_project_path p w = check_project_path (join (getcwd w) p) w).
Proof.
  intros Hcwd. split.
  - destruct (check_project_path_outcome p w) as (r & Hr & _ & Hd & _).
    exists r. split; [done|]. rewrite Hd. unfold absolute_form.
    destruct (isabs p) eqn:Hp; apply isabs_normpath; [done|].
    by apply isabs_join.
  - intros Hp. apply check_project_path_same_form. unfold absolute_form.
    by rewrite Hp, (isabs_join _ p Hcwd).
Qed.

Lemma check_project_path_resolution_witness :
  (∃ r, outcome (check_project_path "../../mnt/c/work")
          linux_host = inr r
        ∧ isabs (details r) = true)
  ∧ check_project_path "proj" linux_host
    = check_project_path "/home/dev/proj" linux_host.
Proof.
  split.
  - apply (check_project_path_resolution "../../mnt/c/work" linux_host).
    reflexivity.
  - apply (check_project_path_resolution "proj" linux_host); reflexivity.
Defined.

Lemma rev_string_rev a acc acc' :
  rev_string acc (rev_string acc' a) = rev_string (a +:+ acc) acc'.
Proof.
  revert acc'. induction a as [|c a IH]; intros acc'; [done|].
  cbn [rev_string]. by rewrite IH.
Qed.

Lemma rev_string_sep_free a acc :
  sep_free a = true → sep_free acc = true → sep_free (rev_string acc a) = true.
Proof.
  unfold sep_free. revert acc. induction a as [|c a IH]; intros acc Ha Hacc;
    [done|].
  cbn [all_chars] in Ha. apply andb_prop in Ha as [Hc Ha].
  cbn [rev_string]. apply IH; [done|]. cbn [all_chars]. by rewrite Hc, Hacc.
Qed.

Lemma split_sep_aux_sep_free cur s :
  sep_free cur = true → Forall (λ c, sep_free c = true) (split_sep_aux cur s).
Proof.
  revert cur. induction s as [|c s IH]; intros cur Hcur; cbn [split_sep_aux].
  - constructor; [|done]. by apply rev_string_sep_free.
  - destruct (Ascii.eqb c "/") eqn:Hc.
    + constructor; [by apply rev_string_sep_free|by apply IH].
    + apply IH. unfold sep_free in *. cbn [all_chars]. by rewrite Hc, Hcur.
Qed.

Lemma split_sep_aux_run a cur s :
  sep_free a = true →
  split_sep_aux cur (a +:+ s) = split_sep_aux (rev_string cur a) s.
Proof.
  unfold sep_free. revert cur. induction a as [|c a IH]; intros cur Ha; [done|].
  cbn [all_chars] in Ha. apply andb_prop in Ha as [Hc Ha].
  rewrite append_cons. cbn [split_sep_aux rev_string].
  apply negb_true_iff in Hc. rewrite Hc. by apply IH.
Qed.

Lemma split_sep_single a : sep_free a = true → split_sep a = [a].
Proof.
  intros Ha. unfold split_sep.
  rewrite <-(append_empty_r a) at 1. rewrite (split_sep_aux_run a "" "" Ha).
  cbn [split_sep_aux]. by rewrite rev_string_rev, append_empty_r.
Qed.

Lemma split_sep_cons a s :
  sep_free a = true → split_sep (a +:+ String "/" s) = a :: split_sep s.
Proof.
  intros Ha. unfold split_sep. rewrite (split_sep_aux_run a "" _ Ha).
  cbn [split_sep_aux]. cbn [Ascii.eqb Bool.eqb andb].
  by rewrite rev_string_rev, append_empty_r.
Qed.

Lemma split_sep_join l :
  l ≠ [] → Forall (λ c, sep_free c = true) l → split_sep (join_sep l) = l.
Proof.
  induction l as [|x l IH]; [done|]. intros _ Hl.
  apply list.Forall_cons in Hl as [Hx Hl]. destruct l as [|y l].
  - by apply split_sep_single.
  - change (join_sep (x :: y :: l))
      with (x +:+ String "/" (join_sep (y :: l))).
    rewrite (split_sep_cons _ _ Hx). f_equal. by apply IH.
Qed.

Lemma clean_last_not_dotdot acc :
  Forall clean acc → list.last acc ≠ Some "..".
Proof.
  intros Hacc Hlast. apply last_Some_elem_of in Hlast.
  destruct (proj1 (list.Forall_forall _ _) Hacc _ Hlast) as (_ & _ & H & _).
  done.
Qed.

Lemma Forall_removelast {A} (P : A → Prop) l :
  Forall P l → Forall P (removelast l).
Proof.
  induction 1 as [|x l Hx Hl IH]; [done|].
  cbn [removelast]. destruct l; [done|]. by constructor.
Qed.

Lemma normpath_step_clean n acc comp :
  n ≠ 0%nat → Forall clean acc → sep_free comp = true →
  Forall clean (normpath_step n acc comp).
Proof.
  intros Hn Hacc Hcomp. unfold normpath_step.
  destruct (bool_decide (comp = "") || bool_decide (comp = ".")) eqn:Hskip;
    [done|].
  apply orb_false_elim in Hskip as [H1 H2].
  apply bool_decide_eq_false in H1, H2.
  rewrite (bool_decide_eq_false_2 (n = 0%nat)) by done.
  rewrite (bool_decide_eq_false_2 (list.last acc = Some ".."))
    by by apply clean_last_not_dotdot.
  rewrite andb_false_r, !orb_false_r.
  destruct (bool_decide (comp ≠ "..")) eqn:Hdd.
  - apply bool_decide_eq_true in Hdd. apply Forall_app. split; [done|].
    by repeat constructor.
  - destruct (bool_decide (acc ≠ [])); [by apply Forall_removelast|done].
Qed.

Lemma fold_normpath_step_clean n comps acc :
  n ≠ 0%nat → Forall clean acc → Forall (λ c, sep_free c = true) comps →
  Forall clean (fold_left (normpath_step n) comps acc).
Proof.
  intros Hn. revert acc. induction comps as [|c comps IH]; intros acc Hacc Hc;
    [done|].
  apply list.Forall_cons in Hc as [Hc Hcs]. cbn [fold_left].
  apply IH; [|done]. by apply normpath_step_clean.
Qed.

Lemma fold_normpath_step_id n l acc :
  n ≠ 0%nat → Forall clean l →
  fold_left (normpath_step n) l acc = acc ++ l.
Proof.
  intros Hn. revert acc. induction l as [|c l IH]; intros acc Hl.
  - by rewrite app_nil_r.
  - apply list.Forall_cons in Hl as [(H1 & H2 & H3 & _) Hl]. cbn [fold_left].
    rewrite (IH _ Hl).
    assert (normpath_step n acc c = acc ++ [c]) as ->.
    { unfold normpath_step.
      rewrite (bool_decide_eq_false_2 (c = "")) by done.
      rewrite (bool_decide_eq_false_2 (c = ".")) by done.
      by rewrite (bool_decide_eq_true_2 (c ≠ "..")) by done. }
    by rewrite <-app_assoc.
Qed.

Lemma join_sep_no_lead l :
  Forall clean l → startswith "/" (join_sep l) = false.
Proof.
  intros Hl. destruct l as [|x l]; [done|].
  apply list.Forall_cons in Hl as [(Hne & _ & _ & Hx) _].
  destruct x as [|c x]; [done|]. unfold sep_free in Hx. cbn [all_chars] in Hx.
  apply andb_prop in Hx as [Hc _]. apply negb_true_iff in Hc.
  assert (startswith "/" (String c x +:+ "/" +:+ join_sep l) = false) as H.
  { rewrite append_cons. cbn [startswith]. by rewrite Ascii.eqb_sym, Hc. }
  destruct l; [|exact H].
  cbn [join_sep startswith]. by rewrite Ascii.eqb_sym, Hc.
Qed.

Lemma fold_split_join n l :
  n ≠ 0%nat → Forall clean l →
  fold_left (normpath_step n) (split_sep (join_sep l)) [] = l.
Proof.
  intros Hn Hl. destruct l as [|x l]; [done|].
  rewrite split_sep_join; [|done|].
  - by rewrite fold_normpath_step_id.
  - apply (list.Forall_impl clean); [exact Hl|]. by intros c (_ & _ & _ & Hc).
Qed.

(** A path built from one or two slashes and clean components is its own
    normal form. *)
Lemma normpath_normal n l :
  n = 1%nat ∨ n = 2%nat → Forall clean l →
  normpath (string_of_seps n +:+ join_sep l) = string_of_seps n +:+ join_sep l.
Proof.
  intros Hn Hl. pose proof (join_sep_no_lead l Hl) as Hlead.
  set (j := join_sep l) in *.
  assert (startswith "/" (String "/" j) = true) as H1 by reflexivity.
  assert (startswith "//" (String "/" j) = startswith "/" j) as H2
    by reflexivity.
  assert (startswith "/" (String "/" (String "/" j)) = true) as H3
    by reflexivity.
  assert (startswith "//" (String "/" (String "/" j)) = true) as H4
    by reflexivity.
  assert (startswith "///" (String "/" (String "/" j)) = startswith "/" j)
    as H5 by reflexivity.
  assert (split_sep (String "/" j) = "" :: split_sep j) as H6
    by apply (split_sep_cons "" j eq_refl).
  assert (split_sep (String "/" (String "/" j)) = "" :: "" :: split_sep j)
    as H7.
  { rewrite <-H6. apply (split_sep_cons "" (String "/" j) eq_refl). }
  unfold normpath. destruct Hn as [-> | ->].
  - change (string_of_seps 1 +:+ j) with (String "/" j).
    rewrite bool_decide_eq_false_2 by done.
    rewrite H1, H2, Hlead, H6. cbn [andb fold_left].
    change (normpath_step 1 [] "") with (@nil string).
    subst j. by rewrite fold_split_join.
  - change (string_of_seps 2 +:+ j) with (String "/" (String "/" j)).
    rewrite bool_decide_eq_false_2 by done.
    rewrite H3, H4, H5, Hlead, H7. cbn [andb negb fold_left].
    change (normpath_step 2 [] "") with (@nil string).
    subst j. by rewrite fold_split_join.
Qed.

Lemma normpath_shape p :
  isabs p = true →
  ∃ n l, (n = 1%nat ∨ n = 2%nat) ∧ Forall clean l
         ∧ normpath p = string_of_seps n +:+ join_sep l.
Proof.
  unfold isabs, normpath. intros Hp.
  rewrite bool_decide_eq_false_2 by (by intros ->). rewrite Hp.
  set (n := if startswith "//" p && negb (startswith "///" p)
            then 2%nat else 1%nat).
  assert (n = 1%nat ∨ n = 2%nat) as Hn
    by (subst n; destruct (_ && _); by auto).
  exists n, (fold_left (normpath_step n) (split_sep p) []).
  split; [done|]. split.
  - apply fold_normpath_step_clean; [by destruct Hn as [-> | ->]|done|].
    by apply split_sep_aux_sep_free.
  - by destruct Hn as [-> | ->].
Qed.

Lemma normpath_idempotent p :
  isabs p = true → normpath (normpath p) = normpath p.
Proof.
  intros Hp. destruct (normpath_shape p Hp) as (n & l & Hn & Hl & ->).
  by apply normpath_normal.
Qed.

(** X19.  In a process whose working directory is an absolute path,
    checking the path that [check_project_path] reports in its details
    gives the same result again: the reported path is its own absolute
    normal form, and the verdict is the verdict on that path. *)
Theorem check_project_path_round_trip (p : string) (w : World) :
  isabs (getcwd w) = true →
  ∃ r, outcome (check_project_path p) w = inr r
       ∧ absolute_form w (details r) = details r
       ∧ check_project_path (details r) w = check_project_path p w.
Proof.
  intros Hcwd.
  destruct (check_project_path_outcome p w) as (r & Hr & _ & Hd & _).
  exists r. split; [done|].
  assert (∃ x, isabs x = true ∧ absolute_form w p = normpath x) as (x & Hx & Hform).
  { unfold absolute_form. destruct (isabs p) eqn:Hp; [by exists p|].
    exists (join (getcwd w) p). split; [by apply isabs_join|done]. }
  assert (absolute_form w (details r) = details r) as Hfix.
  { rewrite Hd, Hform. unfold absolute_form.
    rewrite (isabs_normpath x Hx). by apply normpath_idempotent. }
  split; [done|]. apply check_project_path_same_form. by rewrite Hfix, Hd.
Qed.

Lemma check_project_path_round_trip_witness :
  ∃ r, outcome (check_project_path "/mnt/c/../../home//dev/./proj/") linux_host
       = inr r
       ∧ details r = "/home/dev/proj"
       ∧ check_project_path (details r) linux_host
         = check_project_path "/mnt/c/../../home//dev/./proj/" linux_host.
Proof.
  destruct (check_project_path_round_trip
              "/mnt/c/../../home//dev/./proj/" linux_host eq_refl)
    as (r & Hr & _ & Hsame).
  exists r. split; [exact Hr|]. split; [|exact Hsame].
  injection Hr as <-. reflexivity.
Defined.
